(** * The Go rules engine of pgx ([pgx/_src/games/go.py]) in Rocq

    The JAX program works on [int32] arrays.  Arrays are lists, an [int32]
    is a [Z] whose arithmetic is reduced by [Int32.wrap], and array indexing
    follows JAX: a negative index counts from the end, a read out of range is
    clamped, a write out of range is dropped. *)

From Stdlib Require Import ZArith List Lia Bool QArith.
Import ListNotations.
Open Scope Z_scope.

(** ** 32-bit two's complement arithmetic *)

Module Int32.

Definition half : Z := 2 ^ 31.
Definition modulus : Z := 2 ^ 32.

Definition wrap (z : Z) : Z := (z + half) mod modulus - half.

Definition in_range (z : Z) : Prop := - half <= z < half.

Definition add (a b : Z) : Z := wrap (a + b).
Definition sub (a b : Z) : Z := wrap (a - b).
Definition mul (a b : Z) : Z := wrap (a * b).
Definition abs (a : Z) : Z := wrap (Z.abs a).
(* [//] and [%] of jnp round towards minus infinity, like [Z.div]/[Z.modulo].
   By zero, XLA's division yields -1 and its remainder the dividend;
   [floor_divide] then subtracts one more when the signs differ and the
   remainder is nonzero, so [0 // 0 = -1], [a // 0 = -2] otherwise, and
   [a % 0 = a] (which is also [Z.modulo a 0]). *)
Definition floordiv (a b : Z) : Z :=
  if b =? 0 then (if a =? 0 then -1 else -2) else wrap (a / b).
Definition rem (a b : Z) : Z := wrap (a mod b).

End Int32.

(** ** The array operations of [jax.numpy] used by the program *)

Module Jnp.

Definition len {A} (l : list A) : Z := Z.of_nat (length l).

Definition arange (n : Z) : list Z := map Z.of_nat (seq 0 (Z.to_nat n)).

(* [jnp.arange(lo, hi)] *)
Definition arange2 (lo hi : Z) : list Z := map (fun i => lo + i) (arange (hi - lo)).

Definition normalize (n i : Z) : Z := if i <? 0 then i + n else i.

Definition clamp (n i : Z) : Z := Z.max 0 (Z.min (n - 1) i).

(* [l[i]] : negative indices count from the end, then the index is clamped *)
Definition get {A} (d : A) (l : list A) (i : Z) : A :=
  nth (Z.to_nat (clamp (len l) (normalize (len l) i))) l d.

Fixpoint set_nth {A} (n : nat) (v : A) (l : list A) : list A :=
  match l, n with
  | [], _ => []
  | _ :: t, O => v :: t
  | x :: t, S m => x :: set_nth m v t
  end.

(* [l.at[i].set(v)] : an update out of range is dropped *)
Definition at_set {A} (l : list A) (i : Z) (v : A) : list A :=
  let j := normalize (len l) i in
  if (0 <=? j) && (j <? len l) then set_nth (Z.to_nat j) v l else l.

(* [l.at[i].add(v)] on int32 arrays *)
Definition at_add (l : list Z) (i : Z) (v : Z) : list Z :=
  let j := normalize (len l) i in
  if (0 <=? j) && (j <? len l)
  then set_nth (Z.to_nat j) (Int32.add (nth (Z.to_nat j) l 0) v) l
  else l.

(* [jnp.where(c, a, b)] on arrays of one shape *)
Fixpoint where_ {A} (c : list bool) (a b : list A) : list A :=
  match c, a, b with
  | ci :: c', ai :: a', bi :: b' => (if ci then ai else bi) :: where_ c' a' b'
  | _, _, _ => []
  end.

(* [jnp.where(c, a, v)] and [jnp.where(c, v, b)] with a scalar [v] *)
Fixpoint where_r {A} (c : list bool) (a : list A) (v : A) : list A :=
  match c, a with
  | ci :: c', ai :: a' => (if ci then ai else v) :: where_r c' a' v
  | _, _ => []
  end.

Fixpoint where_l {A} (c : list bool) (v : A) (b : list A) : list A :=
  match c, b with
  | ci :: c', bi :: b' => (if ci then v else bi) :: where_l c' v b'
  | _, _ => []
  end.

Fixpoint zip_with {A B C} (f : A -> B -> C) (a : list A) (b : list B) : list C :=
  match a, b with
  | x :: a', y :: b' => f x y :: zip_with f a' b'
  | _, _ => []
  end.

Definition sumZ (l : list Z) : Z := fold_right Z.add 0 l.

(* [.sum()] of an int32 array: the exact sum reduced to 32 bits *)
Definition sum (l : list Z) : Z := Int32.wrap (sumZ l).

Definition b2z (b : bool) : Z := if b then 1 else 0.

(* [.sum()] and [count_nonzero] of a boolean array *)
Definition count (l : list bool) : Z := sum (map b2z l).

Definition any (l : list bool) : bool := existsb (fun b => b) l.
Definition all (l : list bool) : bool := forallb (fun b => b) l.

Definition clip (lo hi x : Z) : Z := Z.max lo (Z.min hi x).

Definition full {A} (n : Z) (v : A) : list A := repeat v (Z.to_nat n).

(* [jnp.roll] of a flat array *)
Definition roll {A} (l : list A) (k : Z) : list A :=
  if len l =? 0 then l
  else let r := Z.to_nat (k mod len l) in
       skipn (length l - r) l ++ firstn (length l - r) l.

Fixpoint chunks {A} (rows cols : nat) (l : list A) : list (list A) :=
  match rows with
  | O => []
  | S r => firstn cols l :: chunks r cols (skipn cols l)
  end.

(* [jnp.roll] of a two-dimensional array without [axis]: flatten, roll,
   restore the shape *)
Definition roll2d {A} (h : list (list A)) (k : Z) : list (list A) :=
  chunks (length h) (length (hd [] h)) (roll (concat h) k).

End Jnp.

(** ** [GameState] and [Game] *)

Record GameState : Type := mkGameState {
  color : Z;                       (* 0 = black, 1 = white *)
  chain_id_board : list Z;
  board_history : list (list Z);
  num_captured_stones : list Z;    (* [b, w] *)
  consecutive_pass_count : Z;
  ko : Z;
  is_psk : bool
}.

Definition with_color (s : GameState) v :=
  mkGameState v (chain_id_board s) (board_history s) (num_captured_stones s)
    (consecutive_pass_count s) (ko s) (is_psk s).
Definition with_chain_id_board (s : GameState) v :=
  mkGameState (color s) v (board_history s) (num_captured_stones s)
    (consecutive_pass_count s) (ko s) (is_psk s).
Definition with_board_history (s : GameState) v :=
  mkGameState (color s) (chain_id_board s) v (num_captured_stones s)
    (consecutive_pass_count s) (ko s) (is_psk s).
Definition with_num_captured_stones (s : GameState) v :=
  mkGameState (color s) (chain_id_board s) (board_history s) v
    (consecutive_pass_count s) (ko s) (is_psk s).
Definition with_consecutive_pass_count (s : GameState) v :=
  mkGameState (color s) (chain_id_board s) (board_history s) (num_captured_stones s)
    v (ko s) (is_psk s).
Definition with_ko (s : GameState) v :=
  mkGameState (color s) (chain_id_board s) (board_history s) (num_captured_stones s)
    (consecutive_pass_count s) v (is_psk s).
Definition with_is_psk (s : GameState) v :=
  mkGameState (color s) (chain_id_board s) (board_history s) (num_captured_stones s)
    (consecutive_pass_count s) (ko s) v.

(* komi is a float32; the values used (0.5, 7.5) and their differences with
   integer scores are dyadic and exact, so a rational stands for it *)
Record Game : Type := mkGame {
  size : Z;
  komi : Q;
  history_length : Z
}.

(* A Python call either returns or raises *)
Inductive outcome (A : Type) : Type :=
| Returned (a : A)
| Raised (e : Z).
Arguments Returned {A} a.
Arguments Raised {A} e.

(* [Game.__init__]: three assignments, no check *)
Definition __init__ (size : Z) (komi : Q) (history_length : Z) : outcome Game :=
  Returned (mkGame size komi history_length).

(** ** Colours and neighbours *)

Definition _my_color (state : GameState) : Z := Jnp.get 0 [1; -1] (color state).

Definition _opponent_color (state : GameState) : Z := Jnp.get 0 [-1; 1] (color state).

Definition _neighbour (xy size : Z) : list Z :=
  let dx := [-1; 1; 0; 0] in
  let dy := [0; 0; -1; 1] in
  let xs := map (fun d => Int32.add (Int32.floordiv xy size) d) dx in
  let ys := map (fun d => Int32.add (Int32.rem xy size) d) dy in
  Jnp.zip_with
    (fun x y =>
       if (0 <=? x) && (x <? size) && (0 <=? y) && (y <? size)
       then Int32.add (Int32.mul x size) y
       else -1)
    xs ys.

Definition _neighbours (size : Z) : list (list Z) :=
  map (fun xy => _neighbour xy size) (Jnp.arange (size * size)).

Definition _ko_may_occur (state : GameState) (xy size : Z) : bool :=
  let x := Int32.floordiv xy size in
  let y := Int32.rem xy size in
  let oob := [(Int32.sub x 1 <? 0); (Int32.add x 1 >=? size);
              (Int32.sub y 1 <? 0); (Int32.add y 1 >=? size)] in
  let oppo_color := _opponent_color state in
  let is_occupied_by_opp :=
    map (fun nb => Int32.mul (Jnp.get 0 (chain_id_board state) nb) oppo_color >? 0)
        (_neighbour xy size) in
  Jnp.all (Jnp.zip_with orb oob is_occupied_by_opp).

(** ** Pseudo-liberty counting *)

(* the inner function [_count_neighbor] of [_count], with the arrays it
   closes over as arguments *)
Definition _count_neighbor (size : Z) (is_empty : list bool)
  (idx_sum idx_squared_sum : list Z) (xy : Z) : Z * Z * Z :=
  let neighbors := _neighbour xy size in
  let on_board := map (fun nb => negb (nb =? -1)) neighbors in
  (Jnp.sum (Jnp.where_r on_board
              (map (fun nb => Jnp.b2z (Jnp.get false is_empty nb)) neighbors) 0),
   Jnp.sum (Jnp.where_r on_board
              (map (fun nb => Jnp.get 0 idx_sum nb) neighbors) 0),
   Jnp.sum (Jnp.where_r on_board
              (map (fun nb => Jnp.get 0 idx_squared_sum nb) neighbors) 0)).

(* the inner functions [_num_pseudo], [_idx_sum] and [_idx_squared_sum] of
   [_count], each summing one per-cell array over the cells of chain [x] *)
Definition _num_pseudo (chain_id_board num_pseudo : list Z) (x : Z) : Z :=
  Jnp.sum (Jnp.where_r (map (fun c => c =? Int32.add x 1) chain_id_board) num_pseudo 0).

Definition _idx_sum (chain_id_board idx_sum : list Z) (x : Z) : Z :=
  Jnp.sum (Jnp.where_r (map (fun c => c =? Int32.add x 1) chain_id_board) idx_sum 0).

Definition _idx_squared_sum (chain_id_board idx_squared_sum : list Z) (x : Z) : Z :=
  Jnp.sum (Jnp.where_r (map (fun c => c =? Int32.add x 1) chain_id_board)
             idx_squared_sum 0).

Definition _count (state : GameState) (size : Z) : list Z * list Z * list Z :=
  let chain_id_board := map Int32.abs (chain_id_board state) in
  let is_empty := map (fun c => c =? 0) chain_id_board in
  let idx_sum := Jnp.where_r is_empty (Jnp.arange2 1 (size * size + 1)) 0 in
  let idx_squared_sum :=
    Jnp.where_r is_empty
      (map (fun i => Int32.mul i i) (Jnp.arange2 1 (size * size + 1))) 0 in
  let idx := Jnp.arange (size * size) in
  let per_cell := map (_count_neighbor size is_empty idx_sum idx_squared_sum) idx in
  let num_pseudo := map (fun t => fst (fst t)) per_cell in
  let idx_sum := map (fun t => snd (fst t)) per_cell in
  let idx_squared_sum := map snd per_cell in
  (map (_num_pseudo chain_id_board num_pseudo) idx,
   map (_idx_sum chain_id_board idx_sum) idx,
   map (_idx_squared_sum chain_id_board idx_squared_sum) idx).

(* the atari test shared by [legal_action_mask] and [_apply_action]:
   [(idx_sum[ix] ** 2) == idx_squared_sum[ix] * num_pseudo[ix]] *)
Definition atari_test (cnt : list Z * list Z * list Z) (chain_ix : Z) : bool :=
  let '(num_pseudo, idx_sum, idx_squared_sum) := cnt in
  Int32.mul (Jnp.get 0 idx_sum chain_ix) (Jnp.get 0 idx_sum chain_ix)
  =? Int32.mul (Jnp.get 0 idx_squared_sum chain_ix) (Jnp.get 0 num_pseudo chain_ix).

(** ** Control operators of [jax.lax] *)

Module Lax.

(* [fori_loop(lo, hi, body, init)] *)
Definition fori_loop {X} (lo hi : Z) (body : Z -> X -> X) (init : X) : X :=
  fold_left (fun s i => body i s) (Jnp.arange2 lo hi) init.

(* [while_loop(cond, body, init)]; [None] when the fuel does not suffice *)
Fixpoint while_loop {X} (fuel : nat) (cond : X -> bool) (body : X -> X) (x : X)
  : option X :=
  match fuel with
  | O => None
  | S f => if cond x then while_loop f cond body (body x) else Some x
  end.

End Lax.

(** ** Legal moves *)

(* the arrays [in_atari], [has_liberty] and [kills_opp] of [legal_action_mask] *)
Definition in_atari (state : GameState) (size : Z) : list bool :=
  let cnt := _count state size in
  let chain_ix := map (fun c => Int32.sub (Int32.abs c) 1) (chain_id_board state) in
  map (atari_test cnt) chain_ix.

Definition has_liberty (state : GameState) (size : Z) : list bool :=
  let my_color := _my_color state in
  Jnp.zip_with (fun c a => (Int32.mul c my_color >? 0) && negb a)
    (chain_id_board state) (in_atari state size).

Definition kills_opp (state : GameState) (size : Z) : list bool :=
  let opp_color := _opponent_color state in
  Jnp.zip_with (fun c a => (Int32.mul c opp_color >? 0) && a)
    (chain_id_board state) (in_atari state size).

(* the inner function [is_neighbor_ok] of [legal_action_mask], with the
   arrays it closes over as arguments *)
Definition is_neighbor_ok (size : Z) (is_empty has_liberty kills_opp : list bool)
  (xy : Z) : bool :=
  let neighbors := _neighbour xy size in
  let on_board := map (fun nb => negb (nb =? -1)) neighbors in
  let _has_empty := map (Jnp.get false is_empty) neighbors in
  let _has_liberty := map (Jnp.get false has_liberty) neighbors in
  let _kills_opp := map (Jnp.get false kills_opp) neighbors in
  Jnp.any (Jnp.zip_with andb on_board _has_empty)
  || Jnp.any (Jnp.zip_with andb on_board _kills_opp)
  || Jnp.any (Jnp.zip_with andb on_board _has_liberty).

Definition legal_action_mask (self : Game) (state : GameState) : list bool :=
  let is_empty := map (fun c => c =? 0) (chain_id_board state) in
  let has_liberty := has_liberty state (size self) in
  let kills_opp := kills_opp state (size self) in
  let neighbor_ok :=
    map (is_neighbor_ok (size self) is_empty has_liberty kills_opp)
        (Jnp.arange (size self * size self)) in
  let legal_action_mask := Jnp.zip_with andb is_empty neighbor_ok in
  let legal_action_mask :=
    if ko state =? -1 then legal_action_mask
    else Jnp.at_set legal_action_mask (ko state) false in
  legal_action_mask ++ [true].

(** ** Applying a move *)

Definition _apply_pass (state : GameState) : GameState :=
  with_consecutive_pass_count state (Int32.add (consecutive_pass_count state) 1).

Definition _set_stone (state : GameState) (xy : Z) : GameState :=
  let my_color := _my_color state in
  with_chain_id_board state
    (Jnp.at_set (chain_id_board state) xy (Int32.mul (Int32.add xy 1) my_color)).

Definition _merge_chain (state : GameState) (xy adj_xy : Z) : GameState :=
  let my_color := _my_color state in
  let new_id := Int32.abs (Jnp.get 0 (chain_id_board state) xy) in
  let adj_chain_id := Int32.abs (Jnp.get 0 (chain_id_board state) adj_xy) in
  let small_id := Int32.mul (Z.min new_id adj_chain_id) my_color in
  let large_id := Int32.mul (Z.max new_id adj_chain_id) my_color in
  let chain_id_board :=
    Jnp.where_l (map (fun c => c =? large_id) (chain_id_board state))
      small_id (chain_id_board state) in
  with_chain_id_board state chain_id_board.

Definition _merge_around_xy (i : Z) (state : GameState) (xy size : Z) : GameState :=
  let my_color := _my_color state in
  let adj_xy := Jnp.get 0 (_neighbour xy size) i in
  let is_off := adj_xy =? -1 in
  let is_my_chain := Int32.mul (Jnp.get 0 (chain_id_board state) adj_xy) my_color >? 0 in
  if negb is_off && is_my_chain then _merge_chain state xy adj_xy else state.

Definition _remove_stones (state : GameState) (rm_chain_id rm_stone_xy : Z)
  (ko_may_occur : bool) : GameState :=
  let surrounded_stones := map (fun c => c =? rm_chain_id) (chain_id_board state) in
  let num_captured := Jnp.count surrounded_stones in
  let chain_id_board := Jnp.where_l surrounded_stones 0 (chain_id_board state) in
  let ko' := if ko_may_occur && (num_captured =? 1) then rm_stone_xy else ko state in
  mkGameState (color state) chain_id_board (board_history state)
    (Jnp.at_add (num_captured_stones state) (color state) num_captured)
    (consecutive_pass_count state) ko' (is_psk state).

(* the vector [is_killed] of [_apply_action] *)
Definition is_killed (state : GameState) (xy size : Z) : list bool :=
  let adj_xy := _neighbour xy size in
  let oppo_color := _opponent_color state in
  let chain_id := map (Jnp.get 0 (chain_id_board state)) adj_xy in
  let cnt := _count state size in
  let '(num_pseudo, idx_sum, idx_squared_sum) := cnt in
  let chain_ix := map (fun c => Int32.sub (Int32.abs c) 1) chain_id in
  let is_atari := map (atari_test cnt) chain_ix in
  let single_liberty :=
    map (fun ix => Int32.sub (Int32.floordiv (Jnp.get 0 idx_squared_sum ix)
                                              (Jnp.get 0 idx_sum ix)) 1) chain_ix in
  Jnp.zip_with andb
    (Jnp.zip_with andb
       (Jnp.zip_with andb
          (map (fun a => negb (a =? -1)) adj_xy)
          (map (fun c => Int32.mul c oppo_color >? 0) chain_id))
       is_atari)
    (map (fun l => l =? xy) single_liberty).

(* the first [fori_loop] of [_apply_action]: remove the killed chains *)
Definition remove_killed (state : GameState) (xy size : Z) : GameState :=
  let ko_may_occur := _ko_may_occur state xy size in
  let adj_xy := _neighbour xy size in
  let chain_id := map (Jnp.get 0 (chain_id_board state)) adj_xy in
  let killed := is_killed state xy size in
  Lax.fori_loop 0 4
    (fun i s =>
       if Jnp.get false killed i
       then _remove_stones s (Jnp.get 0 chain_id i) (Jnp.get 0 adj_xy i) ko_may_occur
       else s)
    state.

Definition _apply_action (state : GameState) (action size : Z) : GameState :=
  let state := with_consecutive_pass_count state 0 in
  let xy := action in
  let num_captured_stones_before := Jnp.get 0 (num_captured_stones state) (color state) in
  let state := remove_killed state xy size in
  let state := _set_stone state xy in
  let state := Lax.fori_loop 0 4 (fun i s => _merge_around_xy i s xy size) state in
  if Int32.sub (Jnp.get 0 (num_captured_stones state) (color state))
       num_captured_stones_before =? 1
  then state
  else with_ko state (-1).

(** ** Superko approximation *)

Definition _check_PSK (state : GameState) : bool :=
  let not_passed := consecutive_pass_count state =? 0 in
  let h0 := Jnp.get [] (board_history state) 0 in
  not_passed
  && Jnp.any
       (map (fun row =>
               Jnp.sum (Jnp.zip_with (fun a b => Int32.abs (Int32.sub a b)) h0 row) =? 0)
            (tl (board_history state))).

(** ** The game interface *)

Definition init (self : Game) : GameState :=
  mkGameState 0
    (Jnp.full (size self * size self) 0)
    (Jnp.full 8 (Jnp.full (size self * size self) 2))
    (Jnp.full 2 0) 0 (-1) false.

Definition step (self : Game) (state : GameState) (action : Z) : GameState :=
  let state := with_ko state (-1) in
  let state :=
    if action <? size self * size self
    then _apply_action state action (size self)
    else _apply_pass state in
  let state := with_color state (Int32.rem (Int32.add (color state) 1) 2) in
  let board_history := Jnp.roll2d (board_history state) (size self * size self) in
  let board_history :=
    Jnp.at_set board_history 0 (map (Jnp.clip (-1) 1) (chain_id_board state)) in
  let state := with_board_history state board_history in
  with_is_psk state (_check_PSK state).

Definition is_terminal (self : Game) (state : GameState) : bool :=
  let two_consecutive_pass := consecutive_pass_count state >=? 2 in
  two_consecutive_pass || is_psk state.

(** ** Area scoring *)

Definition is_opp_neighbours (size : Z) (b : list Z) : list bool :=
  Jnp.zip_with
    (fun c nbs =>
       (c =? 0)
       && Jnp.any (map (fun nb => (Jnp.get 0 b nb =? -1) && negb (nb =? -1)) nbs))
    b (_neighbours size).

Definition fill_opp (size : Z) (x : list Z * bool) : list Z * bool :=
  let '(b, _) := x in
  let mask := is_opp_neighbours size b in
  (Jnp.where_l mask (-1) b, Jnp.any mask).

Definition _count_ji (fuel : nat) (state : GameState) (color size : Z) : option Z :=
  let board := map (fun _ => 0) (chain_id_board state) in
  let board :=
    Jnp.where_l (map (fun c => Int32.mul c color >? 0) (chain_id_board state)) 1 board in
  let board :=
    Jnp.where_l (map (fun c => Int32.mul c color <? 0) (chain_id_board state)) (-1) board in
  match Lax.while_loop fuel snd (fill_opp size) (board, true) with
  | Some (b, _) => Some (Jnp.count (map (fun c => c =? 0) b))
  | None => None
  end.

(* the two scores are small integers, exact as float32 *)
Definition _count_point (fuel : nat) (state : GameState) (size : Z) : option (list Z) :=
  match _count_ji fuel state 1 size, _count_ji fuel state (-1) size with
  | Some ji_b, Some ji_w =>
      Some [Int32.add ji_b (Jnp.count (map (fun c => c >? 0) (chain_id_board state)));
            Int32.add ji_w (Jnp.count (map (fun c => c <? 0) (chain_id_board state)))]
  | _, _ => None
  end.

Definition Qgtb (a b : Q) : bool := negb (Qle_bool a b).

Definition terminal_values (fuel : nat) (self : Game) (state : GameState)
  : option (list Z) :=
  match _count_point fuel state (size self) with
  | Some score =>
      let reward_bw :=
        if Qgtb (inject_Z (Jnp.get 0 score 0) - komi self) (inject_Z (Jnp.get 0 score 1))
        then [1; -1] else [-1; 1] in
      let to_play := color state in
      Some (if is_psk state then Jnp.at_set [-1; -1] to_play 1 else reward_bw)
  | None => None
  end.


(** ** Notions the properties are stated with *)

(* the documented sizes keep every cell index inside 32 bits *)
Definition side_ok (size : Z) : Prop := 0 < size /\ size * size < Int32.half.

Definition on_board (size c : Z) : Prop := 0 <= c < size * size.

(* orthogonal adjacency of two cells of the board, by row and column *)
Definition adjacent (size a b : Z) : Prop :=
  on_board size a /\ on_board size b /\
  ((a / size = b / size /\ Z.abs (a mod size - b mod size) = 1) \/
   (a mod size = b mod size /\ Z.abs (a / size - b / size) = 1)).

(* the cell at row [x], column [y], or -1 off the board *)
Definition cell_at (size x y : Z) : Z :=
  if (0 <=? x) && (x <? size) && (0 <=? y) && (y <? size) then x * size + y else -1.

Definition wf_board (size : Z) (board : list Z) : Prop :=
  Jnp.len board = size * size /\
  forall c, In c board -> - (size * size) <= c <= size * size.

Definition wf_color (state : GameState) : Prop :=
  (color state = 0 \/ color state = 1) /\ length (num_captured_stones state) = 2%nat.

(* the chain tag of a cell *)
Definition tag (state : GameState) (c : Z) : Z := Jnp.get 0 (chain_id_board state) c.

(* black stones carry positive tags, white stones negative ones *)
Definition owned_by (col t : Z) : Prop := (col = 0 /\ 0 < t) \/ (col = 1 /\ t < 0).

Definition mover_stone (state : GameState) (c : Z) : Prop :=
  owned_by (color state) (tag state c).

Definition opponent_stone (state : GameState) (c : Z) : Prop :=
  owned_by (1 - color state) (tag state c).

(* the entry of the program's array [in_atari] for cell [c] *)
Definition chain_in_atari (size : Z) (state : GameState) (c : Z) : bool :=
  atari_test (_count state size) (Int32.sub (Int32.abs (tag state c)) 1).

(* the cells [is_empty & neighbor_ok] marks, in terms of the program's
   array [in_atari] *)
Definition playable (size : Z) (state : GameState) (xy : Z) : Prop :=
  tag state xy = 0 /\
  exists nb, adjacent size xy nb /\
    (tag state nb = 0 \/
     (opponent_stone state nb /\ chain_in_atari size state nb = true) \/
     (mover_stone state nb /\ chain_in_atari size state nb = false)).

(* a decidable form of [wf_board] *)
Definition wf_boardb (size : Z) (board : list Z) : bool :=
  (Jnp.len board =? size * size)
  && forallb (fun c => (- (size * size) <=? c) && (c <=? size * size)) board.

(* the cells holding a stone in [before] and none in [after], as a mask, and
   their number *)
Definition emptied (before after : list Z) : list bool :=
  Jnp.zip_with (fun x y => negb (x =? 0) && (y =? 0)) before after.

Definition num_emptied (before after : list Z) : Z :=
  Jnp.sumZ (map Jnp.b2z (emptied before after)).

Definition captured_cell (before after : list Z) (c : Z) : Prop :=
  0 <= c < Jnp.len before /\ Jnp.get 0 before c <> 0 /\ Jnp.get 0 after c = 0.

(* the number of cells carrying the tag [id] *)
Definition chain_size (board : list Z) (id : Z) : Z :=
  Jnp.sumZ (map Jnp.b2z (map (fun c => c =? id) board)).

(* the state in which [_apply_action] starts its removal loop, and the state
   in which the loop ends *)
Definition play_start (state : GameState) : GameState :=
  with_consecutive_pass_count (with_ko state (-1)) 0.

Definition capture_phase (self : Game) (state : GameState) (action : Z) : GameState :=
  remove_killed (play_start state) action (size self).

(* every neighbour of [xy] on the board holds an opponent stone *)
Definition ko_precondition (size : Z) (state : GameState) (xy : Z) : Prop :=
  forall nb, adjacent size xy nb -> opponent_stone state nb.
(* the boards a removal loop passes through: every cell is unchanged or
   emptied *)
Definition shrunk (before after : list Z) : Prop :=
  Forall2 (fun x y => y = 0 \/ y = x) before after.


(* what the removal loop of [_apply_action] maintains, [s0] being the state
   it starts from and [kmo] the value of [_ko_may_occur] *)
Record removal_inv (s0 : GameState) (kmo : bool) (t : GameState) : Prop := {
  inv_color : color t = color s0;
  inv_history : board_history t = board_history s0;
  inv_pass : consecutive_pass_count t = consecutive_pass_count s0;
  inv_psk : is_psk t = is_psk s0;
  inv_shrunk : shrunk (chain_id_board s0) (chain_id_board t);
  inv_caplen : length (num_captured_stones t) = 2%nat;
  inv_captured :
    Int32.wrap (Jnp.get 0 (num_captured_stones t) (color s0))
    = Int32.wrap (Jnp.get 0 (num_captured_stones s0) (color s0)
                  + num_emptied (chain_id_board s0) (chain_id_board t));
  inv_other :
    Jnp.get 0 (num_captured_stones t) (1 - color s0)
    = Jnp.get 0 (num_captured_stones s0) (1 - color s0);
  inv_ko_off : kmo = false -> ko t = ko s0;
  inv_ko_none :
    num_emptied (chain_id_board s0) (chain_id_board t) = 0 -> ko t = ko s0;
  inv_ko_one :
    kmo = true -> num_emptied (chain_id_board s0) (chain_id_board t) = 1 ->
    captured_cell (chain_id_board s0) (chain_id_board t) (ko t)
}.

(** ** Concrete positions used as test inputs *)

Definition game5 : Game := mkGame 5 (1 # 2) 8.

(* black to play at cell 7 takes the white stone at cell 6, whose other
   neighbours are black; the four neighbours of cell 7 are white *)
Definition ko_position : GameState :=
  mkGameState 0
    [ 0;  2; -3;  0; 0;
      6; -7;  0; -9; 0;
      0; 12; -13; 0; 0;
      0;  0;  0;  0; 0;
      0;  0;  0;  0; 0]
    (board_history (init game5)) [0; 0] 0 (-1) false.

(* every row of a two-dimensional array has [k] entries *)
Definition rows_of_width {A} (k : nat) (rows : list (list A)) : Prop :=
  Forall (fun r => length r = k) rows.

(* the number of empty cells of a flood-fill board *)
Definition zeros (b : list Z) : nat := length (filter (fun c => c =? 0) b).

(* the ko position with a ring that already holds the board black's capture
   at cell 7 produces *)
Definition repeat_position : GameState :=
  with_board_history ko_position
    (map (Jnp.clip (-1) 1) (chain_id_board (step game5 ko_position 7))
     :: Jnp.full 7 (Jnp.full 25 2)).

(** ** The corner capture scenario *)

(* a corner, the neighbour holding the black stone, and the neighbour black
   plays next: every such triple of a board of the given side *)
Definition corner_cases (size : Z) : list (Z * Z * Z) :=
  let cell x y := x * size + y in
  let inner v := if v =? 0 then 1 else size - 2 in
  flat_map
    (fun '(x, y) =>
       [(cell x y, cell (inner x) y, cell x (inner y));
        (cell x y, cell x (inner y), cell (inner x) y)])
    [(0, 0); (0, size - 1); (size - 1, 0); (size - 1, size - 1)].

(* black to move; a lone white stone on [corner] and a black stone on
   [first]; everything else as [init] leaves it *)
Definition corner_position (self : Game) (corner first : Z) : GameState :=
  with_chain_id_board (init self)
    (Jnp.at_set
       (Jnp.at_set (chain_id_board (init self)) corner (- (corner + 1)))
       first (first + 1)).

(* what the program does when black then plays [second], as one check *)
Definition corner_capture_check (self : Game) (corner first second : Z) : bool :=
  let s := corner_position self corner first in
  let s' := step self s second in
  let pass := size self * size self in
  let s'' := step self (step self s' pass) pass in
  (Jnp.get 0 (num_captured_stones s) 0 =? 0)
  && (Jnp.get 0 (num_captured_stones s') 0 =? 1)
  && (tag s corner =? - (corner + 1))
  && (tag s' corner =? 0)
  && (ko s' =? -1)
  && negb (Jnp.get false (legal_action_mask self s') corner)
  && (color s'' =? 1)
  && negb (Jnp.get false (legal_action_mask self s'') corner).

(** ** Liberties *)

(* the empty neighbours of a cell, one entry per direction, as [_count]
   visits them *)
Definition empty_neighbours (size : Z) (state : GameState) (c : Z) : list Z :=
  filter (fun nb => negb (nb =? -1) && (tag state nb =? 0)) (_neighbour c size).

(* the cells of chain [x], the chain whose tags have magnitude [x + 1] *)
Definition chain_cells (size : Z) (state : GameState) (x : Z) : list Z :=
  filter (fun c => Z.abs (tag state c) =? x + 1) (Jnp.arange (size * size)).

(* the pseudo-liberties of chain [x]: one entry per pair of a member cell and
   an empty neighbour of it *)
Definition pseudo_liberties (size : Z) (state : GameState) (x : Z) : list Z :=
  flat_map (empty_neighbours size state) (chain_cells size state x).

(* [L] is a liberty of chain [x]: an empty cell adjacent to a member *)
Definition chain_liberty (size : Z) (state : GameState) (x L : Z) : Prop :=
  on_board size L /\ tag state L = 0 /\
  exists m, on_board size m /\ Z.abs (tag state m) = x + 1 /\ adjacent size m L.

(* chain [x] has exactly one liberty cell *)
Definition single_liberty (size : Z) (state : GameState) (x : Z) : Prop :=
  exists L, chain_liberty size state x L /\
            forall L', chain_liberty size state x L' -> L' = L.

(* the three numbers the atari test combines, for chain [x] *)
Definition num_pseudo_of (size : Z) (state : GameState) (x : Z) : Z :=
  Jnp.get 0 (fst (fst (_count state size))) x.
Definition idx_sum_of (size : Z) (state : GameState) (x : Z) : Z :=
  Jnp.get 0 (snd (fst (_count state size))) x.
Definition idx_squared_sum_of (size : Z) (state : GameState) (x : Z) : Z :=
  Jnp.get 0 (snd (_count state size)) x.

(* [n * sum of squares - (sum)^2] of a list of integers *)
Definition spread (l : list Z) : Z :=
  Jnp.len l * Jnp.sumZ (map (fun y => y * y) l) - Jnp.sumZ l * Jnp.sumZ l.

(* the products compared by the atari test of chain [x] differ by less than
   [2^32], so that their 32-bit images agree only if they are equal *)
Definition products_fit (size : Z) (state : GameState) (x : Z) : Prop :=
  idx_squared_sum_of size state x * num_pseudo_of size state x
  - idx_sum_of size state x * idx_sum_of size state x < Int32.modulus.

(* the chain through cell [c] is in atari: it has exactly one liberty *)
Definition in_atari_chain (size : Z) (state : GameState) (c : Z) : Prop :=
  single_liberty size state (Z.abs (tag state c) - 1).

(* section 4.3 of the specification, without the ko exception, atari being
   counted in liberties *)
Definition playable_by_liberties (size : Z) (state : GameState) (xy : Z) : Prop :=
  tag state xy = 0 /\
  exists nb, adjacent size xy nb /\
    (tag state nb = 0 \/
     (opponent_stone state nb /\ in_atari_chain size state nb) \/
     (mover_stone state nb /\ ~ in_atari_chain size state nb)).

(* no atari test of the position is affected by 32-bit wrap-around: the
   board has side 13 or less, where that cannot happen, or the products of
   every chain fit *)
Definition tests_exact (size : Z) (state : GameState) : Prop :=
  size <= 13 \/ forall x, 0 <= x < size * size -> products_fit size state x.

(* a white stone on the corner cell 0 with a black stone on cell 1: the white
   chain's only liberty is cell 5 *)
Definition atari_position : GameState := step game5 (step game5 (init game5) 1) 0.

(* the corner scenario on every board side of a list *)
Definition corner_capture_checks (sides : list Z) : bool :=
  forallb
    (fun n =>
       forallb (fun '(c, a, b) => corner_capture_check (mkGame n (15 # 2) 8) c a b)
               (corner_cases n))
    sides.

(* the 5x5 game after two passes from the empty board *)
Definition two_passes : GameState := step game5 (step game5 (init game5) 25) 25.

(* what [corner_capture_check] checks, as a proposition *)
Definition corner_capture_outcome (self : Game) (corner first second : Z) : Prop :=
  let s := corner_position self corner first in
  let s' := step self s second in
  let pass := size self * size self in
  let s'' := step self (step self s' pass) pass in
  Jnp.get 0 (num_captured_stones s) 0 = 0 /\
  Jnp.get 0 (num_captured_stones s') 0 = 1 /\
  tag s corner = - (corner + 1) /\
  tag s' corner = 0 /\
  ko s' = -1 /\
  Jnp.get false (legal_action_mask self s') corner = false /\
  color s'' = 1 /\
  Jnp.get false (legal_action_mask self s'') corner = false.
(** * Properties *)

(** ** Arithmetic modulo [2^32] *)

Module Int32Facts.

Lemma half_val : Int32.half = 2147483648.
Proof. reflexivity. Qed.

Lemma modulus_val : Int32.modulus = 4294967296.
Proof. reflexivity. Qed.

Lemma wrap_small (z : Z) : Int32.in_range z -> Int32.wrap z = z.
Proof.
  unfold Int32.in_range, Int32.wrap. rewrite half_val, modulus_val. intros H.
  rewrite Z.mod_small; lia.
Qed.

Lemma wrap_range (z : Z) : Int32.in_range (Int32.wrap z).
Proof.
  unfold Int32.in_range, Int32.wrap. rewrite half_val, modulus_val.
  pose proof (Z.mod_pos_bound (z + 2147483648) 4294967296). lia.
Qed.

Lemma wrap_congr (a b : Z) :
  Int32.wrap a = Int32.wrap b <-> (a - b) mod Int32.modulus = 0.
Proof.
  unfold Int32.wrap. rewrite half_val, modulus_val. split; intros H.
  - assert (E : (a + 2147483648) mod 4294967296 = (b + 2147483648) mod 4294967296) by lia.
    replace (a - b) with ((a + 2147483648) - (b + 2147483648)) by lia.
    rewrite Zminus_mod, E, Z.sub_diag. reflexivity.
  - f_equal.
    replace (a + 2147483648) with ((b + 2147483648) + (a - b)) by lia.
    rewrite Zplus_mod, H, Z.add_0_r, Z.mod_mod; lia.
Qed.

Lemma wrap_idem (a : Z) : Int32.wrap (Int32.wrap a) = Int32.wrap a.
Proof. apply wrap_small, wrap_range. Qed.

Lemma wrap_add_l (a b : Z) : Int32.wrap (Int32.wrap a + b) = Int32.wrap (a + b).
Proof.
  apply wrap_congr. unfold Int32.wrap. rewrite half_val, modulus_val.
  replace ((a + 2147483648) mod 4294967296 - 2147483648 + b - (a + b))
    with ((a + 2147483648) mod 4294967296 - (a + 2147483648)) by lia.
  rewrite Zminus_mod, Z.mod_mod, Z.sub_diag by lia. reflexivity.
Qed.

Lemma wrap_sub_l (a b : Z) : Int32.wrap (Int32.wrap a - b) = Int32.wrap (a - b).
Proof. unfold Z.sub. apply wrap_add_l. Qed.

Lemma wrap_0 : Int32.wrap 0 = 0.
Proof. reflexivity. Qed.

(* a wrapped value equals a small constant only when the exact value does,
   provided the exact value is known to be a small natural number *)
Lemma wrap_eq_small (z c : Z) :
  0 <= z < Int32.half -> Int32.wrap z = c <-> z = c.
Proof.
  intros H. rewrite wrap_small; [tauto|]. unfold Int32.in_range. lia.
Qed.

Lemma mul_pos_nonzero (c k : Z) : (Int32.mul c k >? 0) = true -> c <> 0.
Proof.
  intros H E. subst c. unfold Int32.mul in H. simpl in H. discriminate H.
Qed.

Lemma floordiv_nonzero (a b : Z) : b <> 0 -> Int32.floordiv a b = Int32.wrap (a / b).
Proof. intros H. unfold Int32.floordiv. destruct (Z.eqb_spec b 0); [contradiction|reflexivity]. Qed.

End Int32Facts.

(** ** Array reads and writes *)

Module JnpFacts.

Import Jnp.

Lemma len_nonneg {A} (l : list A) : 0 <= len l.
Proof. unfold len. lia. Qed.

Lemma arange_length (n : Z) : length (arange n) = Z.to_nat n.
Proof. unfold arange. now rewrite length_map, length_seq. Qed.

Lemma arange_len (n : Z) : 0 <= n -> len (arange n) = n.
Proof. intros. unfold len. rewrite arange_length. lia. Qed.

Lemma arange_nth (n : Z) (i : nat) (d : Z) :
  (i < Z.to_nat n)%nat -> nth i (arange n) d = Z.of_nat i.
Proof.
  intros H. unfold arange.
  rewrite nth_indep with (d' := Z.of_nat 0) by (now rewrite length_map, length_seq).
  rewrite map_nth, seq_nth by assumption. reflexivity.
Qed.

Lemma arange_In (n x : Z) : In x (arange n) <-> 0 <= x < n.
Proof.
  unfold arange. rewrite in_map_iff. split.
  - intros (i & <- & Hi). apply in_seq in Hi. lia.
  - intros H. exists (Z.to_nat x). split; [lia|]. apply in_seq. lia.
Qed.

Lemma get_in_range {A} (d : A) (l : list A) (i : Z) :
  0 <= i < len l -> get d l i = nth (Z.to_nat i) l d.
Proof.
  intros H. unfold get, normalize, clamp.
  destruct (Z.ltb_spec i 0); [lia|]. f_equal. lia.
Qed.

Lemma get_arange (n i d : Z) : 0 <= i < n -> get d (arange n) i = i.
Proof.
  intros H. rewrite get_in_range by (rewrite arange_len; lia).
  rewrite arange_nth by lia. lia.
Qed.

Lemma get_map {A B} (f : A -> B) (d : A) (l : list A) (i : Z) :
  get (f d) (map f l) i = f (get d l i).
Proof.
  unfold get, len. rewrite length_map. apply map_nth.
Qed.

Lemma zip_with_length {A B C} (f : A -> B -> C) (a : list A) (b : list B) :
  length (zip_with f a b) = Nat.min (length a) (length b).
Proof.
  revert b. induction a as [|x a IH]; intros [|y b]; simpl; auto.
Qed.

Lemma zip_with_nth {A B C} (f : A -> B -> C) (a : list A) (b : list B)
  (n : nat) (da : A) (db : B) (dc : C) :
  (n < length a)%nat -> (n < length b)%nat ->
  nth n (zip_with f a b) dc = f (nth n a da) (nth n b db).
Proof.
  revert b n. induction a as [|x a IH]; intros [|y b] [|n]; simpl; intros; try lia; auto.
  apply IH; lia.
Qed.

Lemma get_zip_with {A B C} (f : A -> B -> C) (a : list A) (b : list B)
  (i : Z) (da : A) (db : B) (dc : C) :
  length a = length b -> 0 <= i < len a ->
  get dc (zip_with f a b) i = f (get da a i) (get db b i).
Proof.
  intros E H. unfold len in H.
  rewrite !get_in_range; unfold len; rewrite ?zip_with_length; try lia.
  apply zip_with_nth; lia.
Qed.

Lemma where_l_length {A} (c : list bool) (v : A) (b : list A) :
  length (where_l c v b) = Nat.min (length c) (length b).
Proof.
  revert b. induction c as [|x c IH]; intros [|y b]; simpl; auto.
Qed.

Lemma where_l_nth {A} (c : list bool) (v : A) (b : list A) (n : nat) (d : A) :
  (n < length c)%nat -> (n < length b)%nat ->
  nth n (where_l c v b) d = if nth n c false then v else nth n b d.
Proof.
  revert b n. induction c as [|x c IH]; intros [|y b] [|n]; simpl; intros; try lia; auto.
  apply IH; lia.
Qed.

Lemma where_l_map {A} (p : A -> bool) (v : A) (b : list A) :
  where_l (map p b) v b = map (fun x => if p x then v else x) b.
Proof. induction b as [|x b IH]; simpl; congruence. Qed.

Lemma where_r_length {A} (c : list bool) (a : list A) (v : A) :
  length (where_r c a v) = Nat.min (length c) (length a).
Proof.
  revert a. induction c as [|x c IH]; intros [|y a]; simpl; auto.
Qed.

Lemma set_nth_length {A} (n : nat) (v : A) (l : list A) :
  length (set_nth n v l) = length l.
Proof.
  revert n. induction l as [|x l IH]; intros [|n]; simpl; auto.
Qed.

Lemma set_nth_nth {A} (n m : nat) (v d : A) (l : list A) :
  (n < length l)%nat ->
  nth m (set_nth n v l) d = if Nat.eqb m n then v else nth m l d.
Proof.
  revert n m. induction l as [|x l IH]; intros [|n] [|m]; simpl; intros; try lia; auto.
  apply IH; lia.
Qed.

Lemma at_set_length {A} (l : list A) (i : Z) (v : A) :
  length (at_set l i v) = length l.
Proof.
  unfold at_set. destruct (_ && _); auto using set_nth_length.
Qed.

Lemma at_add_length (l : list Z) (i v : Z) : length (at_add l i v) = length l.
Proof.
  unfold at_add. destruct (_ && _); auto using set_nth_length.
Qed.

Lemma get_at_set {A} (l : list A) (i j : Z) (v d : A) :
  0 <= i < len l -> 0 <= j < len l ->
  get d (at_set l i v) j = if j =? i then v else get d l j.
Proof.
  intros Hi Hj. unfold at_set, normalize.
  destruct (Z.ltb_spec i 0); [lia|].
  destruct (Z.leb_spec 0 i); [|lia]. destruct (Z.ltb_spec i (len l)); [|lia]. simpl.
  unfold len in *.
  rewrite !get_in_range; unfold len; rewrite ?set_nth_length; try lia.
  rewrite set_nth_nth by lia.
  destruct (Z.eqb_spec j i), (Nat.eqb_spec (Z.to_nat j) (Z.to_nat i)); auto; lia.
Qed.

Lemma get_at_add (l : list Z) (i j v : Z) :
  0 <= i < len l -> 0 <= j < len l ->
  get 0 (at_add l i v) j = if j =? i then Int32.add (get 0 l i) v else get 0 l j.
Proof.
  intros Hi Hj. unfold at_add, normalize.
  destruct (Z.ltb_spec i 0); [lia|].
  destruct (Z.leb_spec 0 i); [|lia]. destruct (Z.ltb_spec i (len l)); [|lia]. simpl.
  unfold len in *.
  rewrite !get_in_range; unfold len; rewrite ?set_nth_length; try lia.
  rewrite set_nth_nth by lia.
  destruct (Z.eqb_spec j i), (Nat.eqb_spec (Z.to_nat j) (Z.to_nat i)); auto; lia.
Qed.

Lemma any_true (l : list bool) : any l = true <-> In true l.
Proof.
  unfold any. rewrite existsb_exists. split.
  - intros (x & Hx & ->). exact Hx.
  - intros H. now exists true.
Qed.

Lemma all_true (l : list bool) : all l = true <-> forall b, In b l -> b = true.
Proof. unfold all. apply forallb_forall. Qed.

Lemma sumZ_app (a b : list Z) : sumZ (a ++ b) = sumZ a + sumZ b.
Proof. induction a; simpl; lia. Qed.

Lemma sumZ_b2z_bounds (l : list bool) : 0 <= sumZ (map b2z l) <= len l.
Proof.
  unfold len, sumZ. induction l as [|[] l IH];
    cbn [map fold_right length b2z]; rewrite ?Nat2Z.inj_succ; lia.
Qed.

Lemma full_length {A} (n : Z) (v : A) : length (full n v) = Z.to_nat n.
Proof. apply repeat_length. Qed.

Lemma get_map_in {A B} (f : A -> B) (d : A) (d' : B) (l : list A) (i : Z) :
  0 <= i < len l -> get d' (map f l) i = f (get d l i).
Proof.
  intros H. unfold len in H.
  rewrite !get_in_range by (unfold len; rewrite ?length_map; lia).
  rewrite nth_indep with (d' := f d) by (rewrite length_map; lia).
  apply map_nth.
Qed.

Lemma zip_with_map {A B C D} (f : B -> C -> D) (g : A -> B) (h : A -> C) (l : list A) :
  zip_with f (map g l) (map h l) = map (fun x => f (g x) (h x)) l.
Proof. induction l as [|x l IH]; simpl; congruence. Qed.

Lemma any_map {A} (p : A -> bool) (l : list A) : any (map p l) = existsb p l.
Proof. unfold any. induction l as [|x l IH]; simpl; congruence. Qed.

Lemma all_map {A} (p : A -> bool) (l : list A) : all (map p l) = forallb p l.
Proof. unfold all. induction l as [|x l IH]; simpl; congruence. Qed.

Lemma get_app_l {A} (d : A) (l k : list A) (i : Z) :
  0 <= i < len l -> get d (l ++ k) i = get d l i.
Proof.
  intros H. unfold len in H.
  rewrite !get_in_range by (unfold len; rewrite ?length_app; lia).
  apply app_nth1. lia.
Qed.

Lemma get_app_last {A} (d v : A) (l : list A) : get d (l ++ [v]) (len l) = v.
Proof.
  rewrite get_in_range by (unfold len; rewrite length_app; simpl; lia).
  unfold len. rewrite Nat2Z.id, app_nth2, Nat.sub_diag by lia. reflexivity.
Qed.

Lemma where_r_map {A B} (p : A -> bool) (g : A -> B) (v : B) (l : list A) :
  where_r (map p l) (map g l) v = map (fun a => if p a then g a else v) l.
Proof. induction l as [|x l IH]; simpl; congruence. Qed.

Lemma sumZ_map_filter {A} (p : A -> bool) (g : A -> Z) (l : list A) :
  sumZ (map (fun a => if p a then g a else 0) l) = sumZ (map g (filter p l)).
Proof.
  unfold sumZ. induction l as [|x l IH]; [reflexivity|].
  cbn [map filter fold_right]. destruct (p x); cbn [map fold_right]; lia.
Qed.

Lemma sumZ_flat_map {A} (h : Z -> Z) (f : A -> list Z) (l : list A) :
  sumZ (map h (flat_map f l)) = sumZ (map (fun a => sumZ (map h (f a))) l).
Proof.
  induction l as [|x l IH]; [reflexivity|].
  cbn [flat_map map]. rewrite map_app, sumZ_app, IH. reflexivity.
Qed.

Lemma sumZ_map_bounds {A} (h : A -> Z) (B : Z) (l : list A) :
  (forall a, In a l -> 0 <= h a <= B) -> 0 <= sumZ (map h l) <= len l * B.
Proof.
  unfold sumZ, len. induction l as [|x l IH]; intros H; [cbn; lia|].
  cbn [map fold_right length]. rewrite Nat2Z.inj_succ.
  specialize (IH (fun a Ha => H a (or_intror Ha))).
  pose proof (H x (or_introl eq_refl)). lia.
Qed.

Lemma sumZ_ones {A} (l : list A) : sumZ (map (fun _ => 1) l) = len l.
Proof.
  unfold sumZ, len. induction l as [|x l IH]; [reflexivity|].
  cbn [map fold_right length]. rewrite Nat2Z.inj_succ. lia.
Qed.

Lemma sumZ_map_ext_in {A} (f g : A -> Z) (l : list A) :
  (forall a, In a l -> f a = g a) -> sumZ (map f l) = sumZ (map g l).
Proof. intros H. f_equal. apply map_ext_in. exact H. Qed.

Lemma filter_length_len {A} (p : A -> bool) (l : list A) : len (filter p l) <= len l.
Proof. unfold len. pose proof (filter_length_le p l). lia. Qed.

End JnpFacts.

(** ** Construction, the history ring and passes *)

Lemma init_history_rows (self : Game) : length (board_history (init self)) = 8%nat.
Proof. reflexivity. Qed.

Lemma init_history_sentinel (self : Game) (row : list Z) (c : Z) :
  In row (board_history (init self)) -> In c row ->
  c = 2 /\ c <> 0 /\ c <> 1 /\ c <> -1.
Proof.
  unfold init, Jnp.full. cbn [board_history]. intros Hrow Hc.
  apply repeat_spec in Hrow. subst row. apply repeat_spec in Hc. lia.
Qed.

Lemma chunks_length {A} (rows cols : nat) (l : list A) :
  length (Jnp.chunks rows cols l) = rows.
Proof. revert l. induction rows; simpl; auto. Qed.

(** C6, as the code has it: [init] allocates eight history rows whatever
    history depth the game was constructed with; here a game of depth 4
    gets a ring of 8 entries, not 4. *)
Theorem C6_init_ring_ignores_history_length :
  history_length (mkGame 5 (15 # 2) 4) = 4 /\
  Jnp.len (board_history (init (mkGame 5 (15 # 2) 4))) = 8 /\
  Jnp.len (board_history (step (mkGame 5 (15 # 2) 4) (init (mkGame 5 (15 # 2) 4)) 12)) = 8.
Proof. repeat split. Qed.

(** C9 fails on the code: constructing a game of side 0 (or -3) returns a
    game, it raises nothing. *)
Lemma C9_counterexample :
  ~ (exists e, __init__ 0 (15 # 2) 8 = Raised e) /\
  ~ (exists e, __init__ (-3) (15 # 2) 8 = Raised e).
Proof. split; intros (e & H); discriminate H. Qed.

(** C9, amended: construction with a board side [N <= 0] does not fail; the
    constructor stores side, komi and history depth unchecked and returns. *)
Theorem C9_construction_never_fails (n : Z) (k : Q) (h : Z) :
  n <= 0 ->
  __init__ n k h = Returned (mkGame n k h) /\ forall e, __init__ n k h <> Raised e.
Proof. intros _. split; [reflexivity|]. intros e H. discriminate H. Qed.

Lemma C9_construction_never_fails_witness :
  0 <= 0 /\
  __init__ 0 (15 # 2) 8 = Returned (mkGame 0 (15 # 2) 8) /\
  forall e, __init__ 0 (15 # 2) 8 <> Raised e.
Proof. split; [lia | apply (C9_construction_never_fails 0 (15 # 2) 8); lia]. Defined.

Lemma pass_count_after_pass (self : Game) (state : GameState) (action : Z) :
  size self * size self <= action ->
  consecutive_pass_count (step self state action)
  = Int32.add (consecutive_pass_count state) 1.
Proof.
  intros H. unfold step. destruct (Z.ltb_spec action (size self * size self)); [lia|].
  reflexivity.
Qed.

Lemma psk_is_check (self : Game) (state : GameState) (action : Z) :
  is_psk (step self state action) = true ->
  consecutive_pass_count (step self state action) = 0.
Proof.
  unfold step. cbn [is_psk with_is_psk consecutive_pass_count].
  unfold _check_PSK. cbn [consecutive_pass_count with_board_history with_color].
  intros H. apply andb_true_iff in H. destruct H as [H _]. apply Z.eqb_eq in H. exact H.
Qed.

Lemma succ_not_zero (c : Z) : 0 <= c < Int32.half -> Int32.add c 1 <> 0.
Proof.
  intros H E. unfold Int32.add in E. rewrite <- Int32Facts.wrap_0 in E.
  apply Int32Facts.wrap_congr in E. rewrite Int32Facts.modulus_val in E.
  rewrite Int32Facts.half_val in H. rewrite Z.mod_small in E; lia.
Qed.

(** C10: a pass never leaves the superko flag set.  [step] recomputes the
    flag, and [_check_PSK] is false whenever the pass counter is nonzero; the
    successor of a pass is terminal exactly when its pass counter is at
    least two. *)
Theorem C10_pass_clears_superko_flag (self : Game) (state : GameState) (action : Z) :
  size self * size self <= action ->
  0 <= consecutive_pass_count state < Int32.half ->
  is_psk (step self state action) = false /\
  consecutive_pass_count (step self state action)
  = Int32.add (consecutive_pass_count state) 1 /\
  is_terminal self (step self state action)
  = (consecutive_pass_count (step self state action) >=? 2).
Proof.
  intros Ha Hc.
  assert (Hp : is_psk (step self state action) = false).
  { destruct (is_psk (step self state action)) eqn:E; [|reflexivity].
    apply psk_is_check in E. rewrite pass_count_after_pass in E by assumption.
    now apply succ_not_zero in E. }
  split; [exact Hp|]. split; [now apply pass_count_after_pass|].
  unfold is_terminal. rewrite Hp. apply orb_false_r.
Qed.

Lemma C10_pass_clears_superko_flag_witness :
  let g := mkGame 5 (1 # 2) 8 in
  let s := with_is_psk (step g (init g) 12) true in
  is_psk s = true /\
  is_psk (step g s 25) = false /\
  consecutive_pass_count (step g s 25) = Int32.add (consecutive_pass_count s) 1 /\
  is_terminal g (step g s 25) = (consecutive_pass_count (step g s 25) >=? 2).
Proof.
  split; [reflexivity|].
  apply (C10_pass_clears_superko_flag (mkGame 5 (1 # 2) 8)
           (with_is_psk (step (mkGame 5 (1 # 2) 8) (init (mkGame 5 (1 # 2) 8)) 12) true) 25).
  - vm_compute. discriminate.
  - vm_compute. split; [discriminate | reflexivity].
Defined.

(** ** Neighbours *)

Section Neighbour.

Variable size : Z.
Hypothesis Hside : side_ok size.

Lemma side_pos : 0 < size.
Proof. apply Hside. Qed.

Lemma div_mod_cell (xy : Z) :
  on_board size xy ->
  0 <= xy / size < size /\ 0 <= xy mod size < size /\
  xy = (xy / size) * size + xy mod size.
Proof.
  intros H. pose proof side_pos as Hp. unfold on_board in H.
  pose proof (Z.mod_pos_bound xy size Hp).
  pose proof (Z.div_mod xy size ltac:(lia)).
  assert (0 <= xy / size) by (apply Z.div_pos; lia).
  assert (xy / size < size) by (apply Z.div_lt_upper_bound; lia).
  lia.
Qed.

Lemma cell_div_mod (x y : Z) :
  0 <= x < size -> 0 <= y < size ->
  on_board size (x * size + y) /\ (x * size + y) / size = x /\ (x * size + y) mod size = y.
Proof.
  intros Hx Hy. pose proof side_pos as Hp. repeat split.
  - nia.
  - nia.
  - rewrite Z.add_comm, Z.div_add by lia. rewrite Z.div_small; lia.
  - rewrite Z.add_comm, Z.mod_add by lia. apply Z.mod_small; lia.
Qed.

Lemma small_in_range (z : Z) : - (size * size) <= z <= size * size -> Int32.in_range z.
Proof.
  destruct Hside as [Hp Hs]. unfold Int32.in_range. rewrite Int32Facts.half_val in *.
  intros H. nia.
Qed.

Lemma cell_at_wrapped (x y : Z) :
  (if (0 <=? x) && (x <? size) && (0 <=? y) && (y <? size)
   then Int32.add (Int32.mul x size) y else -1) = cell_at size x y.
Proof.
  unfold cell_at, Int32.add, Int32.mul. pose proof side_pos as Hp.
  destruct (_ && _) eqn:E; [|reflexivity].
  rewrite !andb_true_iff in E.
  rewrite (Int32Facts.wrap_small (x * size)) by (apply small_in_range; nia).
  apply Int32Facts.wrap_small, small_in_range. nia.
Qed.

Lemma _neighbour_cells (xy : Z) :
  on_board size xy ->
  _neighbour xy size =
  [cell_at size (xy / size - 1) (xy mod size);
   cell_at size (xy / size + 1) (xy mod size);
   cell_at size (xy / size) (xy mod size - 1);
   cell_at size (xy / size) (xy mod size + 1)].
Proof.
  intros H. destruct (div_mod_cell xy H) as (Hx & Hy & _).
  pose proof side_pos as Hp.
  unfold _neighbour. cbn [map Jnp.zip_with]. rewrite !cell_at_wrapped.
  rewrite !Int32Facts.floordiv_nonzero by lia.
  unfold Int32.rem, Int32.add.
  rewrite (Int32Facts.wrap_small (xy / size)) by (apply small_in_range; nia).
  rewrite (Int32Facts.wrap_small (xy mod size)) by (apply small_in_range; nia).
  rewrite !Z.add_0_r.
  rewrite !(Int32Facts.wrap_small (xy / size + _)) by (apply small_in_range; nia).
  rewrite !(Int32Facts.wrap_small (xy mod size + _)) by (apply small_in_range; nia).
  rewrite (Int32Facts.wrap_small (xy / size)) by (apply small_in_range; nia).
  rewrite (Int32Facts.wrap_small (xy mod size)) by (apply small_in_range; nia).
  reflexivity.
Qed.

Lemma cell_at_on_board (x y : Z) :
  cell_at size x y <> -1 ->
  0 <= x < size /\ 0 <= y < size /\ cell_at size x y = x * size + y.
Proof.
  unfold cell_at. destruct (_ && _) eqn:E; [|congruence]. intros _.
  rewrite !andb_true_iff in E. lia.
Qed.

Lemma cell_at_in (x y : Z) :
  0 <= x < size -> 0 <= y < size -> cell_at size x y = x * size + y.
Proof.
  intros Hx Hy. unfold cell_at.
  destruct (Z.leb_spec 0 x), (Z.ltb_spec x size), (Z.leb_spec 0 y), (Z.ltb_spec y size);
    simpl; lia.
Qed.

(* the on-board entries of [_neighbour] are exactly the adjacent cells *)
Lemma _neighbour_adjacent (xy nb : Z) :
  on_board size xy ->
  (In nb (_neighbour xy size) /\ nb <> -1) <-> adjacent size xy nb.
Proof.
  intros H. rewrite _neighbour_cells by assumption.
  destruct (div_mod_cell xy H) as (Hx & Hy & Hxy).
  split.
  - intros [Hin Hnb]. cbn [In] in Hin.
    assert (Hc : exists x y, nb = cell_at size x y /\
               ((x = xy / size /\ Z.abs (xy mod size - y) = 1) \/
                (y = xy mod size /\ Z.abs (xy / size - x) = 1))).
    { destruct Hin as [E|[E|[E|[E|[]]]]]; subst nb; eexists; eexists;
        (split; [reflexivity|]); lia. }
    destruct Hc as (x & y & -> & Hrel).
    destruct (cell_at_on_board x y Hnb) as (Hx' & Hy' & ->).
    destruct (cell_div_mod x y Hx' Hy') as (Hb & Hd & Hm).
    unfold adjacent. rewrite Hd, Hm. repeat split; try apply H; try apply Hb.
    destruct Hrel as [[-> ?]|[-> ?]]; [left|right]; split; auto.
  - intros (_ & Hb & Hrel).
    destruct (div_mod_cell nb Hb) as (Hx' & Hy' & Hnb).
    assert (Hne : nb <> -1) by (unfold on_board in Hb; lia).
    split; [|exact Hne].
    assert (E : nb = cell_at size (nb / size) (nb mod size))
      by (rewrite cell_at_in; lia).
    cbn [In]. rewrite E at 1 2 3 4.
    destruct Hrel as [[Ex Ey]|[Ey Ex]].
    + rewrite <- Ex.
      destruct (Z.eq_dec (nb mod size) (xy mod size - 1)) as [->|];
        [right; right; left; reflexivity|].
      right; right; right; left. f_equal. lia.
    + rewrite <- Ey.
      destruct (Z.eq_dec (nb / size) (xy / size - 1)) as [->|];
        [left; reflexivity|].
      right; left. f_equal. lia.
Qed.

Lemma _neighbour_length (xy : Z) : length (_neighbour xy size) = 4%nat.
Proof. reflexivity. Qed.

Lemma _neighbour_entry (xy nb : Z) :
  on_board size xy -> In nb (_neighbour xy size) -> nb = -1 \/ on_board size nb.
Proof.
  intros H Hin. destruct (Z.eq_dec nb (-1)) as [|Hne]; [now left|right].
  apply (_neighbour_adjacent xy nb H). split; assumption.
Qed.

End Neighbour.

(** ** The sum and sum-of-squares identity *)

Lemma sumZ_cons (a : Z) (l : list Z) : Jnp.sumZ (a :: l) = a + Jnp.sumZ l.
Proof. reflexivity. Qed.

Lemma len_cons {A} (a : A) (l : list A) : Jnp.len (a :: l) = 1 + Jnp.len l.
Proof. unfold Jnp.len. simpl length. lia. Qed.

Lemma sum_sq_dev (a : Z) (l : list Z) :
  Jnp.sumZ (map (fun y => (y - a) * (y - a)) l)
  = Jnp.sumZ (map (fun y => y * y) l) - 2 * a * Jnp.sumZ l + Jnp.len l * (a * a).
Proof.
  induction l as [|y l IH]; [cbn; ring|].
  cbn [map]. rewrite !sumZ_cons, len_cons, IH. ring.
Qed.

Lemma sum_sq_dev_nonneg (a : Z) (l : list Z) :
  0 <= Jnp.sumZ (map (fun y => (y - a) * (y - a)) l).
Proof.
  induction l as [|y l IH]; [reflexivity|].
  cbn [map]. rewrite sumZ_cons. pose proof (Z.square_nonneg (y - a)). lia.
Qed.

Lemma spread_cons (a : Z) (l : list Z) :
  spread (a :: l) = spread l + Jnp.sumZ (map (fun y => (y - a) * (y - a)) l).
Proof.
  unfold spread. rewrite sum_sq_dev. cbn [map]. rewrite !sumZ_cons, len_cons. ring.
Qed.

Lemma spread_nonneg (l : list Z) : 0 <= spread l.
Proof.
  induction l as [|a l IH]; [reflexivity|].
  rewrite spread_cons. pose proof (sum_sq_dev_nonneg a l). lia.
Qed.

Lemma sum_sq_dev_zero (a : Z) (l : list Z) :
  Jnp.sumZ (map (fun y => (y - a) * (y - a)) l) = 0 -> forall y, In y l -> y = a.
Proof.
  induction l as [|z l IH]; intros H y Hy; [contradiction|].
  cbn [map] in H. rewrite sumZ_cons in H.
  pose proof (sum_sq_dev_nonneg a l) as Hn.
  pose proof (Z.square_nonneg (z - a)) as Hz.
  destruct Hy as [<-|Hy].
  - assert (E : (z - a) * (z - a) = 0) by lia.
    apply Z.mul_eq_0 in E. lia.
  - apply IH; [lia | exact Hy].
Qed.

(* Cauchy-Schwarz with its equality case *)
Lemma spread_zero_iff (l : list Z) :
  spread l = 0 <-> forall y y', In y l -> In y' l -> y = y'.
Proof.
  induction l as [|a l IH].
  - split; [intros _ y y' [] | reflexivity].
  - rewrite spread_cons. pose proof (spread_nonneg l) as Hs.
    pose proof (sum_sq_dev_nonneg a l) as Hd. split.
    + intros H.
      assert (Ha : forall y, In y l -> y = a) by (apply sum_sq_dev_zero; lia).
      intros y y' [<-|Hy] [<-|Hy']; auto.
      * symmetry. auto.
      * rewrite (Ha y Hy), (Ha y' Hy'). reflexivity.
    + intros H.
      assert (Hl : spread l = 0)
        by (apply IH; intros y y' Hy Hy'; apply H; right; assumption).
      assert (Ha : forall y, In y l -> y = a)
        by (intros y Hy; apply H; [right; assumption | left; reflexivity]).
      assert (E : Jnp.sumZ (map (fun y => (y - a) * (y - a)) l) = 0); [|lia].
      clear - Ha.
      induction l as [|z l IH]; [reflexivity|].
      cbn [map]. rewrite sumZ_cons, IH by (intros y Hy; apply Ha; right; assumption).
      rewrite (Ha z) by (left; reflexivity). ring.
Qed.

(* when all entries equal [a], sum and sum of squares are multiples of [a] *)
Lemma constant_sums (a : Z) (l : list Z) :
  (forall y, In y l -> y = a) ->
  Jnp.sumZ l = Jnp.len l * a /\ Jnp.sumZ (map (fun y => y * y) l) = Jnp.len l * (a * a).
Proof.
  induction l as [|z l IH]; intros H; [split; cbn; ring|].
  destruct IH as [IH1 IH2]; [intros y Hy; apply H; right; assumption|].
  cbn [map]. rewrite !sumZ_cons, len_cons, IH1, IH2, (H z) by (left; reflexivity).
  split; ring.
Qed.

Lemma sq_diff_le (lo hi y a : Z) :
  lo <= y <= hi -> lo <= a <= hi -> (y - a) * (y - a) <= (hi - lo) * (hi - lo).
Proof.
  intros Hy Ha.
  assert (H : 0 <= (hi - lo - (y - a)) * (hi - lo + (y - a)))
    by (apply Z.mul_nonneg_nonneg; lia).
  replace ((hi - lo - (y - a)) * (hi - lo + (y - a)))
    with ((hi - lo) * (hi - lo) - (y - a) * (y - a)) in H by ring.
  lia.
Qed.

Lemma sum_sq_dev_bound (lo hi a : Z) (l : list Z) :
  lo <= a <= hi -> (forall y, In y l -> lo <= y <= hi) ->
  Jnp.sumZ (map (fun y => (y - a) * (y - a)) l) <= Jnp.len l * ((hi - lo) * (hi - lo)).
Proof.
  intros Ha. induction l as [|z l IH]; intros Hl; [cbn; lia|].
  cbn [map]. rewrite sumZ_cons, len_cons.
  specialize (IH (fun y Hy => Hl y (or_intror Hy))).
  pose proof (sq_diff_le lo hi z a (Hl z (or_introl eq_refl)) Ha). lia.
Qed.

Lemma spread_bound (lo hi : Z) (l : list Z) :
  (forall y, In y l -> lo <= y <= hi) ->
  spread l <= Jnp.len l * Jnp.len l * ((hi - lo) * (hi - lo)).
Proof.
  induction l as [|a l IH]; intros H; [cbn; lia|].
  rewrite spread_cons, len_cons.
  pose proof (sum_sq_dev_bound lo hi a l (H a (or_introl eq_refl))
                (fun y Hy => H y (or_intror Hy))) as Hd.
  specialize (IH (fun y Hy => H y (or_intror Hy))).
  pose proof (JnpFacts.len_nonneg l) as Hn.
  pose proof (Z.square_nonneg (hi - lo)) as Hq.
  set (d := (hi - lo) * (hi - lo)) in *. set (n := Jnp.len l) in *.
  assert (Hnd : 0 <= n * d) by (apply Z.mul_nonneg_nonneg; lia).
  replace ((1 + n) * (1 + n) * d) with (n * n * d + (2 * (n * d) + d)) by ring.
  lia.
Qed.

Lemma sumZ_map_scale {A} (c : Z) (g : A -> Z) (l : list A) :
  Jnp.sumZ (map (fun y => c * g y) l) = c * Jnp.sumZ (map g l).
Proof.
  induction l as [|a l IH]; [cbn; ring|].
  cbn [map]. rewrite !sumZ_cons, IH. ring.
Qed.

(* doubling and shifting the entries multiplies the spread by four *)
Lemma spread_affine (k : Z) (l : list Z) :
  spread (map (fun y => 2 * y - k) l) = 4 * spread l.
Proof.
  induction l as [|a l IH]; [reflexivity|].
  cbn [map]. rewrite !spread_cons, IH, map_map.
  rewrite (JnpFacts.sumZ_map_ext_in
             (fun y => (2 * y - k - (2 * a - k)) * (2 * y - k - (2 * a - k)))
             (fun y => 4 * ((y - a) * (y - a))))
    by (intros; ring).
  rewrite sumZ_map_scale. ring.
Qed.

Lemma spread_le_squares (l : list Z) :
  spread l <= Jnp.len l * Jnp.sumZ (map (fun y => y * y) l).
Proof. unfold spread. pose proof (Z.square_nonneg (Jnp.sumZ l)). lia. Qed.

(* entries between [1] and [N]: the spread is at most [(n (N - 1) / 2)^2] *)
Lemma spread_centered (N : Z) (l : list Z) :
  (forall y, In y l -> 1 <= y <= N) ->
  4 * spread l <= Jnp.len l * Jnp.len l * ((N - 1) * (N - 1)).
Proof.
  intros H. rewrite <- (spread_affine (N + 1)).
  etransitivity; [apply spread_le_squares|].
  unfold Jnp.len. rewrite length_map. fold (Jnp.len l). rewrite map_map.
  pose proof (JnpFacts.sumZ_map_bounds
                (fun y => (2 * y - (N + 1)) * (2 * y - (N + 1)))
                ((N - 1) * (N - 1)) l) as Hb.
  destruct Hb as [_ Hb].
  - intros y Hy. specialize (H y Hy). split; [apply Z.square_nonneg|].
    pose proof (sq_diff_le 1 N y (N + 1 - y) H ltac:(lia)) as Hs.
    replace (y - (N + 1 - y)) with (2 * y - (N + 1)) in Hs by ring.
    replace ((N - 1) * (N - 1)) with ((N - 1) * (N - 1)) by ring. exact Hs.
  - pose proof (JnpFacts.len_nonneg l). nia.
Qed.

(** ** What [_count] computes *)

Section Count.

Variable size : Z.
Variable state : GameState.
Hypothesis Hsize : 0 < size <= 19.
Hypothesis Hboard : wf_board size (chain_id_board state).

Let N := size * size.

Lemma cells_bound : 0 < N <= 361.
Proof. unfold N. nia. Qed.

Lemma side_ok_small : side_ok size.
Proof. unfold side_ok. rewrite Int32Facts.half_val. nia. Qed.

Lemma tag_bound (c : Z) : on_board size c -> - N <= tag state c <= N.
Proof.
  intros H. destruct Hboard as [Hl Hr]. apply Hr. unfold tag. unfold on_board in H.
  rewrite JnpFacts.get_in_range by lia.
  apply nth_In. unfold Jnp.len in Hl. lia.
Qed.

Lemma in_range_small (z : Z) : - 2147483648 <= z < 2147483648 -> Int32.in_range z.
Proof. unfold Int32.in_range. rewrite Int32Facts.half_val. lia. Qed.

Lemma abs_tag (c : Z) : on_board size c -> Int32.abs (tag state c) = Z.abs (tag state c).
Proof.
  intros H. pose proof (tag_bound c H). pose proof cells_bound.
  unfold Int32.abs. apply Int32Facts.wrap_small, in_range_small. lia.
Qed.

(* the board, read cell by cell *)
Lemma board_cells : chain_id_board state = map (tag state) (Jnp.arange N).
Proof.
  destruct Hboard as [Hl _]. fold N in Hl. pose proof cells_bound as HN.
  apply nth_ext with (d := 0) (d' := tag state 0).
  - rewrite length_map, JnpFacts.arange_length. unfold Jnp.len in Hl. lia.
  - intros n Hn. unfold Jnp.len in Hl.
    rewrite (map_nth (tag state)), JnpFacts.arange_nth by lia.
    unfold tag. rewrite JnpFacts.get_in_range by (unfold Jnp.len; lia).
    rewrite Nat2Z.id. reflexivity.
Qed.

Lemma arange2_cells : Jnp.arange2 1 (N + 1) = map (fun i => 1 + i) (Jnp.arange N).
Proof. unfold Jnp.arange2. replace (N + 1 - 1) with N by lia. reflexivity. Qed.

(* the arrays [is_empty], [idx_sum] and [idx_squared_sum] that [_count]
   builds first, entry by entry *)
Lemma is_empty_entry (c : Z) :
  on_board size c ->
  Jnp.get false (map (fun t => t =? 0) (map Int32.abs (chain_id_board state))) c
  = (tag state c =? 0).
Proof.
  intros H. rewrite board_cells, !map_map.
  rewrite (JnpFacts.get_map_in _ 0 false)
    by (rewrite JnpFacts.arange_len; [exact H | pose proof cells_bound; lia]).
  rewrite JnpFacts.get_arange by exact H. rewrite abs_tag by exact H.
  destruct (Z.eqb_spec (Z.abs (tag state c)) 0), (Z.eqb_spec (tag state c) 0); auto; lia.
Qed.

Lemma idx_sum_entry (c : Z) :
  on_board size c ->
  Jnp.get 0
    (Jnp.where_r (map (fun t => t =? 0) (map Int32.abs (chain_id_board state)))
       (Jnp.arange2 1 (N + 1)) 0) c
  = if tag state c =? 0 then c + 1 else 0.
Proof.
  intros H. rewrite board_cells, !map_map, arange2_cells, JnpFacts.where_r_map.
  rewrite (JnpFacts.get_map_in _ 0 0)
    by (rewrite JnpFacts.arange_len; [exact H | pose proof cells_bound; lia]).
  rewrite JnpFacts.get_arange by exact H. rewrite abs_tag by exact H.
  destruct (Z.eqb_spec (Z.abs (tag state c)) 0), (Z.eqb_spec (tag state c) 0); lia.
Qed.

Lemma idx_squared_sum_entry (c : Z) :
  on_board size c ->
  Jnp.get 0
    (Jnp.where_r (map (fun t => t =? 0) (map Int32.abs (chain_id_board state)))
       (map (fun i => Int32.mul i i) (Jnp.arange2 1 (N + 1))) 0) c
  = if tag state c =? 0 then (c + 1) * (c + 1) else 0.
Proof.
  intros H. rewrite board_cells, !map_map, arange2_cells, !map_map, JnpFacts.where_r_map.
  rewrite (JnpFacts.get_map_in _ 0 0)
    by (rewrite JnpFacts.arange_len; [exact H | pose proof cells_bound; lia]).
  rewrite JnpFacts.get_arange by exact H. rewrite abs_tag by exact H.
  assert (Hm : Int32.mul (1 + c) (1 + c) = (c + 1) * (c + 1)).
  { unfold Int32.mul. replace (1 + c) with (c + 1) by lia.
    apply Int32Facts.wrap_small, in_range_small.
    pose proof cells_bound. unfold on_board in H. fold N in H. nia. }
  rewrite Hm.
  destruct (Z.eqb_spec (Z.abs (tag state c)) 0), (Z.eqb_spec (tag state c) 0); lia.
Qed.

Lemma empty_neighbours_spec (c L : Z) :
  on_board size c ->
  In L (empty_neighbours size state c) <-> adjacent size c L /\ tag state L = 0.
Proof.
  intros H. unfold empty_neighbours. rewrite filter_In, andb_true_iff, negb_true_iff.
  rewrite !Z.eqb_eq, Z.eqb_neq.
  pose proof (_neighbour_adjacent size side_ok_small c L H). tauto.
Qed.

Lemma empty_neighbours_cells (c L : Z) :
  on_board size c -> In L (empty_neighbours size state c) -> 0 <= L < N.
Proof.
  intros H HL. apply (empty_neighbours_spec c L H) in HL.
  destruct HL as [(_ & Hon & _) _]. exact Hon.
Qed.

Lemma empty_neighbours_len (c : Z) : 0 <= Jnp.len (empty_neighbours size state c) <= 4.
Proof.
  pose proof (JnpFacts.filter_length_len
                (fun nb => negb (nb =? -1) && (tag state nb =? 0)) (_neighbour c size)) as H.
  unfold empty_neighbours. unfold Jnp.len in *. rewrite _neighbour_length in H. lia.
Qed.

(* a masked sum over the four directions is a sum over the empty neighbours *)
Lemma direction_sum (c : Z) (f h : Z -> Z) :
  on_board size c ->
  (forall nb, on_board size nb -> f nb = if tag state nb =? 0 then h nb else 0) ->
  (forall L, 0 <= L < N -> 0 <= h L <= N * N) ->
  Jnp.sum (Jnp.where_r (map (fun nb => negb (nb =? -1)) (_neighbour c size))
             (map f (_neighbour c size)) 0)
  = Jnp.sumZ (map h (empty_neighbours size state c)).
Proof.
  intros H Hf Hh. unfold Jnp.sum. rewrite JnpFacts.where_r_map.
  rewrite (JnpFacts.sumZ_map_ext_in _
             (fun nb => if negb (nb =? -1) && (tag state nb =? 0) then h nb else 0)).
  - rewrite JnpFacts.sumZ_map_filter. fold (empty_neighbours size state c).
    apply Int32Facts.wrap_small, in_range_small.
    pose proof (JnpFacts.sumZ_map_bounds h (N * N) (empty_neighbours size state c)
                  (fun L HL => Hh L (empty_neighbours_cells c L H HL))) as Hb.
    pose proof (empty_neighbours_len c). pose proof cells_bound. nia.
  - intros nb Hnb. destruct (Z.eqb_spec nb (-1)) as [E|E]; [reflexivity|]. cbn [negb andb].
    apply Hf. destruct (_neighbour_entry size side_ok_small c nb H Hnb); [contradiction|assumption].
Qed.

Lemma _count_neighbor_cell (c : Z) :
  on_board size c ->
  _count_neighbor size
    (map (fun t => t =? 0) (map Int32.abs (chain_id_board state)))
    (Jnp.where_r (map (fun t => t =? 0) (map Int32.abs (chain_id_board state)))
       (Jnp.arange2 1 (N + 1)) 0)
    (Jnp.where_r (map (fun t => t =? 0) (map Int32.abs (chain_id_board state)))
       (map (fun i => Int32.mul i i) (Jnp.arange2 1 (N + 1))) 0) c
  = (Jnp.len (empty_neighbours size state c),
     Jnp.sumZ (map (fun L => L + 1) (empty_neighbours size state c)),
     Jnp.sumZ (map (fun L => (L + 1) * (L + 1)) (empty_neighbours size state c))).
Proof.
  intros H. pose proof cells_bound as HN. unfold _count_neighbor.
  rewrite (direction_sum c _ (fun _ => 1) H), JnpFacts.sumZ_ones.
  - rewrite (direction_sum c _ (fun L => L + 1) H).
    + rewrite (direction_sum c _ (fun L => (L + 1) * (L + 1)) H); [reflexivity| |].
      * intros nb Hnb. apply idx_squared_sum_entry. exact Hnb.
      * intros L HL. nia.
    + intros nb Hnb. apply idx_sum_entry. exact Hnb.
    + intros L HL. nia.
  - intros nb Hnb. rewrite is_empty_entry by exact Hnb.
    destruct (tag state nb =? 0); reflexivity.
  - intros L HL. nia.
Qed.

Lemma pseudo_liberties_cells (x L : Z) :
  In L (pseudo_liberties size state x) -> 0 <= L < N.
Proof.
  unfold pseudo_liberties, chain_cells. rewrite in_flat_map.
  intros (c & Hc & HL). apply filter_In in Hc. destruct Hc as [Hc _].
  apply JnpFacts.arange_In in Hc. exact (empty_neighbours_cells c L Hc HL).
Qed.

Lemma pseudo_liberties_len (x : Z) : 0 <= Jnp.len (pseudo_liberties size state x) <= 4 * N.
Proof.
  pose proof cells_bound as HN.
  rewrite <- JnpFacts.sumZ_ones. unfold pseudo_liberties.
  rewrite (JnpFacts.sumZ_flat_map (fun _ => 1)).
  pose proof (JnpFacts.sumZ_map_bounds
                (fun c => Jnp.sumZ (map (fun _ : Z => 1) (empty_neighbours size state c)))
                4 (chain_cells size state x)) as Hb.
  assert (Hc : Jnp.len (chain_cells size state x) <= N).
  { unfold chain_cells. etransitivity; [apply JnpFacts.filter_length_len|].
    rewrite JnpFacts.arange_len; lia. }
  pose proof (JnpFacts.len_nonneg (chain_cells size state x)).
  destruct Hb as [Hb1 Hb2]; [|nia].
  intros c _. rewrite JnpFacts.sumZ_ones. apply empty_neighbours_len.
Qed.

(* a masked sum over the board is a sum over the pseudo-liberties of the chain *)
Lemma chain_sum (vals h : Z -> Z) (x : Z) :
  0 <= x < N ->
  (forall c, on_board size c ->
             vals c = Jnp.sumZ (map h (empty_neighbours size state c))) ->
  (forall L, 0 <= L < N -> 0 <= h L <= N * N) ->
  Jnp.sum (Jnp.where_r
             (map (fun c => c =? Int32.add x 1) (map Int32.abs (chain_id_board state)))
             (map vals (Jnp.arange N)) 0)
  = Jnp.sumZ (map h (pseudo_liberties size state x)).
Proof.
  intros Hx Hv Hh. pose proof cells_bound as HN. unfold Jnp.sum.
  rewrite board_cells, !map_map, JnpFacts.where_r_map.
  rewrite (JnpFacts.sumZ_map_ext_in _
             (fun c => if Z.abs (tag state c) =? x + 1
                       then Jnp.sumZ (map h (empty_neighbours size state c)) else 0)).
  - rewrite JnpFacts.sumZ_map_filter. fold (chain_cells size state x).
    rewrite <- JnpFacts.sumZ_flat_map. fold (pseudo_liberties size state x).
    apply Int32Facts.wrap_small, in_range_small.
    pose proof (JnpFacts.sumZ_map_bounds h (N * N) (pseudo_liberties size state x)
                  (fun L HL => Hh L (pseudo_liberties_cells x L HL))) as Hb.
    pose proof (pseudo_liberties_len x). nia.
  - intros c Hc. apply JnpFacts.arange_In in Hc.
    rewrite abs_tag by exact Hc.
    assert (Ha : Int32.add x 1 = x + 1)
      by (unfold Int32.add; apply Int32Facts.wrap_small, in_range_small; lia).
    rewrite Ha, Hv by exact Hc. reflexivity.
Qed.

(* the three outputs of [_count] for chain [x] are the number of its
   pseudo-liberties, the sum of their indices and the sum of the squares *)
Lemma _count_exact (x : Z) :
  0 <= x < N ->
  num_pseudo_of size state x = Jnp.len (pseudo_liberties size state x) /\
  idx_sum_of size state x
  = Jnp.sumZ (map (fun L => L + 1) (pseudo_liberties size state x)) /\
  idx_squared_sum_of size state x
  = Jnp.sumZ (map (fun L => (L + 1) * (L + 1)) (pseudo_liberties size state x)).
Proof.
  intros Hx. pose proof cells_bound as HN.
  unfold num_pseudo_of, idx_sum_of, idx_squared_sum_of, _count. cbn [fst snd].
  fold N.
  rewrite !(JnpFacts.get_map_in _ 0 0) by (rewrite JnpFacts.arange_len; lia).
  rewrite !JnpFacts.get_arange by exact Hx.
  unfold _num_pseudo, _idx_sum, _idx_squared_sum.
  rewrite !(map_map (_count_neighbor size _ _ _)).
  split; [|split].
  - rewrite (chain_sum _ (fun _ => 1) x Hx), JnpFacts.sumZ_ones; [reflexivity| |].
    + intros c Hc. rewrite _count_neighbor_cell by exact Hc. cbn [fst snd].
      rewrite JnpFacts.sumZ_ones. reflexivity.
    + intros L HL. nia.
  - rewrite (chain_sum _ (fun L => L + 1) x Hx); [reflexivity| |].
    + intros c Hc. rewrite _count_neighbor_cell by exact Hc. reflexivity.
    + intros L HL. nia.
  - rewrite (chain_sum _ (fun L => (L + 1) * (L + 1)) x Hx); [reflexivity| |].
    + intros c Hc. rewrite _count_neighbor_cell by exact Hc. reflexivity.
    + intros L HL. nia.
Qed.

Lemma pseudo_liberties_spec (x L : Z) :
  In L (pseudo_liberties size state x) <-> chain_liberty size state x L.
Proof.
  unfold pseudo_liberties, chain_cells, chain_liberty. rewrite in_flat_map. split.
  - intros (c & Hc & HL). apply filter_In in Hc. destruct Hc as [Hc Ht].
    apply JnpFacts.arange_In in Hc. apply Z.eqb_eq in Ht.
    apply (empty_neighbours_spec c L Hc) in HL. destruct HL as [Hadj H0].
    split; [apply Hadj|]. split; [exact H0|]. exists c. auto.
  - intros (HL & H0 & c & Hc & Ht & Hadj). exists c. split.
    + apply filter_In. split; [apply JnpFacts.arange_In; exact Hc | apply Z.eqb_eq; exact Ht].
    + apply (empty_neighbours_spec c L Hc). auto.
Qed.

Lemma atari_test_of (x : Z) :
  atari_test (_count state size) x
  = (Int32.mul (idx_sum_of size state x) (idx_sum_of size state x)
     =? Int32.mul (idx_squared_sum_of size state x) (num_pseudo_of size state x)).
Proof.
  unfold idx_sum_of, idx_squared_sum_of, num_pseudo_of, atari_test.
  destruct (_count state size) as [[np isum] iq]. reflexivity.
Qed.

(* the exact equation in terms of the shifted pseudo-liberties *)
Lemma identity_spread (x : Z) :
  0 <= x < N ->
  idx_squared_sum_of size state x * num_pseudo_of size state x
  - idx_sum_of size state x * idx_sum_of size state x
  = spread (map (fun L => L + 1) (pseudo_liberties size state x)).
Proof.
  intros Hx. destruct (_count_exact x Hx) as (-> & -> & ->).
  unfold spread, Jnp.len. rewrite length_map, map_map. ring.
Qed.

Lemma spread_single_liberty (x : Z) :
  (exists L, chain_liberty size state x L) ->
  spread (map (fun L => L + 1) (pseudo_liberties size state x)) = 0
  <-> single_liberty size state x.
Proof.
  intros (L0 & HL0). rewrite spread_zero_iff. unfold single_liberty. split.
  - intros H. exists L0. split; [exact HL0|]. intros L' HL'.
    apply pseudo_liberties_spec in HL0, HL'.
    assert (E : L' + 1 = L0 + 1); [|lia].
    apply H; apply in_map_iff; eauto.
  - intros (L & HL & Hu) y y' Hy Hy'.
    apply in_map_iff in Hy, Hy'. destruct Hy as (a & <- & Ha), Hy' as (b & <- & Hb).
    apply pseudo_liberties_spec in Ha, Hb. rewrite (Hu a Ha), (Hu b Hb). reflexivity.
Qed.

End Count.

Lemma wrap_eq_fit (a b : Z) :
  0 <= b - a < Int32.modulus -> Int32.wrap a = Int32.wrap b <-> a = b.
Proof.
  intros H. rewrite Int32Facts.wrap_congr. rewrite Int32Facts.modulus_val in *. split.
  - intros E. destruct (Z.eq_dec a b) as [|Hne]; [assumption|exfalso].
    replace (a - b) with (- (b - a)) in E by lia.
    apply Z.mod_opp_l_z in E; [|lia]. rewrite Z.opp_involutive in E.
    rewrite Z.mod_small in E by lia. lia.
  - intros ->. rewrite Z.sub_diag. reflexivity.
Qed.

(* the 32-bit test, when the products fit *)
Lemma atari_test_single_liberty (size : Z) (state : GameState) (x : Z) :
  0 < size <= 19 ->
  wf_board size (chain_id_board state) ->
  0 <= x < size * size ->
  (exists L, chain_liberty size state x L) ->
  products_fit size state x ->
  (atari_test (_count state size) x = true <-> single_liberty size state x).
Proof.
  intros Hsize Hboard Hx Hlib Hfit.
  pose proof (identity_spread size state Hsize Hboard x Hx) as Hid.
  pose proof (spread_single_liberty size state Hsize x Hlib) as Hsp.
  pose proof (spread_nonneg (map (fun L => L + 1) (pseudo_liberties size state x))) as Hnn.
  rewrite <- Hsp, <- Hid.
  rewrite atari_test_of, Z.eqb_eq. unfold Int32.mul.
  rewrite wrap_eq_fit by (unfold products_fit in Hfit; lia). lia.
Qed.

(* on boards of side 13 or less the two products never differ by [2^32] *)
Lemma small_board_products_fit (size : Z) (state : GameState) (x : Z) :
  0 < size <= 13 ->
  wf_board size (chain_id_board state) ->
  0 <= x < size * size ->
  products_fit size state x.
Proof.
  intros Hsize Hboard Hx.
  assert (Hsize' : 0 < size <= 19) by lia.
  unfold products_fit. rewrite (identity_spread size state Hsize' Hboard x Hx).
  pose proof (spread_centered (size * size)
                (map (fun L => L + 1) (pseudo_liberties size state x))) as Hc.
  pose proof (pseudo_liberties_len size state Hsize' x) as Hn.
  unfold Jnp.len in Hc. rewrite length_map in Hc.
  fold (Jnp.len (pseudo_liberties size state x)) in Hc.
  set (n := Jnp.len (pseudo_liberties size state x)) in *.
  assert (HN : 0 < size * size <= 169) by nia.
  set (N := size * size) in *.
  assert (Hc' : 4 * spread (map (fun L => L + 1) (pseudo_liberties size state x))
                <= n * n * ((N - 1) * (N - 1))).
  { apply Hc. intros y Hy. apply in_map_iff in Hy. destruct Hy as (L & <- & HL).
    pose proof (pseudo_liberties_cells size state Hsize' x L HL). fold N in H. lia. }
  assert (H1 : n * n <= 676 * 676) by (apply Z.mul_le_mono_nonneg; lia).
  assert (H2 : (N - 1) * (N - 1) <= 168 * 168) by (apply Z.mul_le_mono_nonneg; lia).
  assert (H3 : n * n * ((N - 1) * (N - 1)) <= 676 * 676 * (168 * 168)).
  { apply Z.mul_le_mono_nonneg; try lia; apply Z.mul_nonneg_nonneg; lia. }
  rewrite Int32Facts.modulus_val. lia.
Qed.

(** C4: for a chain with at least one liberty, the equation
    [idx_sum^2 = idx_squared_sum * num_pseudo] over the three sums [_count]
    returns holds iff the chain has exactly one liberty cell, and then
    [idx_squared_sum // idx_sum - 1] is that cell; the 32-bit test the
    program evaluates agrees with the equation whenever the two products
    differ by less than [2^32], which is so on every board of side 13 or
    less. *)
Theorem C4_atari_identity (size : Z) (state : GameState) (x : Z) :
  0 < size <= 19 ->
  wf_board size (chain_id_board state) ->
  0 <= x < size * size ->
  (exists L, chain_liberty size state x L) ->
  (idx_sum_of size state x * idx_sum_of size state x
   = idx_squared_sum_of size state x * num_pseudo_of size state x
   <-> single_liberty size state x) /\
  (idx_sum_of size state x * idx_sum_of size state x
   = idx_squared_sum_of size state x * num_pseudo_of size state x ->
   forall L, chain_liberty size state x L ->
     Int32.sub (Int32.floordiv (idx_squared_sum_of size state x)
                               (idx_sum_of size state x)) 1 = L) /\
  (size <= 13 \/ products_fit size state x ->
   (atari_test (_count state size) x = true <-> single_liberty size state x)).
Proof.
  intros Hsize Hboard Hx Hlib.
  pose proof (identity_spread size state Hsize Hboard x Hx) as Hid.
  pose proof (spread_single_liberty size state Hsize x Hlib) as Hsp.
  pose proof (spread_nonneg (map (fun L => L + 1) (pseudo_liberties size state x))) as Hnn.
  assert (Heq : idx_sum_of size state x * idx_sum_of size state x
                = idx_squared_sum_of size state x * num_pseudo_of size state x
                <-> single_liberty size state x).
  { rewrite <- Hsp, <- Hid. lia. }
  split; [exact Heq|]. split.
  - intros E L HL.
    apply Heq in E. destruct E as (L1 & HL1 & Hu).
    assert (HLL : L = L1) by (apply Hu; exact HL). subst L1.
    destruct (_count_exact size state Hsize Hboard x Hx) as (Hn & Hs & Hq).
    destruct (constant_sums (L + 1) (map (fun L => L + 1) (pseudo_liberties size state x)))
      as [Hs' Hq'].
    { intros y Hy. apply in_map_iff in Hy. destruct Hy as (a & <- & Ha).
      apply (pseudo_liberties_spec size state Hsize) in Ha.
      rewrite (Hu a Ha). reflexivity. }
    rewrite map_map in Hq'. unfold Jnp.len in Hs', Hq'. rewrite length_map in Hs', Hq'.
    fold (Jnp.len (pseudo_liberties size state x)) in Hs', Hq'.
    rewrite Hs, Hq, Hs', Hq'.
    assert (Hin : In L (pseudo_liberties size state x))
      by (apply (pseudo_liberties_spec size state Hsize); exact HL).
    assert (Hlen : 1 <= Jnp.len (pseudo_liberties size state x)).
    { unfold Jnp.len. destruct (pseudo_liberties size state x); [contradiction|].
      simpl length. lia. }
    pose proof (pseudo_liberties_cells size state Hsize x L Hin) as HLr.
    pose proof (cells_bound size Hsize) as HN.
    set (n := Jnp.len (pseudo_liberties size state x)) in *.
    rewrite Int32Facts.floordiv_nonzero by nia.
    replace (n * ((L + 1) * (L + 1))) with ((L + 1) * (n * (L + 1))) by ring.
    rewrite Z.div_mul by nia.
    unfold Int32.sub.
    rewrite (Int32Facts.wrap_small (L + 1)) by (apply (in_range_small size); lia).
    replace (L + 1 - 1) with L by lia.
    apply Int32Facts.wrap_small, (in_range_small size). lia.
  - intros Hfit.
    assert (Hfit' : products_fit size state x).
    { destruct Hfit as [Hs|Hf]; [|exact Hf].
      apply small_board_products_fit; [lia | exact Hboard | exact Hx]. }
    rewrite <- Heq.
    rewrite atari_test_of, Z.eqb_eq. unfold Int32.mul.
    apply wrap_eq_fit. unfold products_fit in Hfit'. lia.
Qed.


(** ** The legal-move mask *)

Lemma _my_color_black (s : GameState) : color s = 0 -> _my_color s = 1.
Proof. unfold _my_color. intros ->. reflexivity. Qed.

Lemma _my_color_white (s : GameState) : color s = 1 -> _my_color s = -1.
Proof. unfold _my_color. intros ->. reflexivity. Qed.

Lemma _opponent_color_black (s : GameState) : color s = 0 -> _opponent_color s = -1.
Proof. unfold _opponent_color. intros ->. reflexivity. Qed.

Lemma _opponent_color_white (s : GameState) : color s = 1 -> _opponent_color s = 1.
Proof. unfold _opponent_color. intros ->. reflexivity. Qed.

Section Legal.

Variable self : Game.
Variable state : GameState.
Hypothesis Hside : side_ok (size self).
Hypothesis Hboard : wf_board (size self) (chain_id_board state).
Hypothesis Hcolor : wf_color state.

Lemma tag_range (c : Z) :
  on_board (size self) c ->
  - (size self * size self) <= tag state c <= size self * size self.
Proof.
  intros H. destruct Hboard as [Hl Hr]. apply Hr. unfold tag. unfold on_board in H.
  rewrite JnpFacts.get_in_range by lia.
  apply nth_In. unfold Jnp.len in Hl. lia.
Qed.

Lemma mover_sign (c : Z) :
  on_board (size self) c ->
  (Int32.mul (tag state c) (_my_color state) >? 0) = true <-> mover_stone state c.
Proof.
  intros H. pose proof (tag_range c H) as Ht.
  unfold mover_stone, owned_by, Int32.mul.
  destruct Hcolor as [[E|E] _]; rewrite E;
    [rewrite (_my_color_black _ E) | rewrite (_my_color_white _ E)];
    rewrite Int32Facts.wrap_small by (apply (small_in_range (size self) Hside); lia);
    rewrite Z.gtb_lt; lia.
Qed.

Lemma opponent_sign (c : Z) :
  on_board (size self) c ->
  (Int32.mul (tag state c) (_opponent_color state) >? 0) = true <-> opponent_stone state c.
Proof.
  intros H. pose proof (tag_range c H) as Ht.
  unfold opponent_stone, owned_by, Int32.mul.
  destruct Hcolor as [[E|E] _]; rewrite E;
    [rewrite (_opponent_color_black _ E) | rewrite (_opponent_color_white _ E)];
    rewrite Int32Facts.wrap_small by (apply (small_in_range (size self) Hside); lia);
    rewrite Z.gtb_lt; lia.
Qed.

Lemma board_len : Jnp.len (chain_id_board state) = size self * size self.
Proof. apply Hboard. Qed.

Lemma in_atari_len : length (in_atari state (size self)) = length (chain_id_board state).
Proof. unfold in_atari. now rewrite !length_map. Qed.

Lemma get_is_empty (c : Z) :
  on_board (size self) c ->
  Jnp.get false (map (fun c => c =? 0) (chain_id_board state)) c = (tag state c =? 0).
Proof.
  intros H. unfold tag. apply (JnpFacts.get_map_in (fun c => c =? 0) 0).
  rewrite board_len. exact H.
Qed.

Lemma get_in_atari (c : Z) :
  on_board (size self) c ->
  Jnp.get false (in_atari state (size self)) c = chain_in_atari (size self) state c.
Proof.
  intros H. unfold in_atari, chain_in_atari, tag. rewrite map_map.
  apply (JnpFacts.get_map_in (fun c => atari_test _ (Int32.sub (Int32.abs c) 1)) 0).
  rewrite board_len. exact H.
Qed.

Lemma get_has_liberty (c : Z) :
  on_board (size self) c ->
  Jnp.get false (has_liberty state (size self)) c = true
  <-> mover_stone state c /\ chain_in_atari (size self) state c = false.
Proof.
  intros H. unfold has_liberty.
  rewrite (JnpFacts.get_zip_with _ _ _ _ 0 false)
    by (rewrite ?in_atari_len; auto; rewrite board_len; exact H).
  rewrite get_in_atari by assumption. fold (tag state c).
  rewrite andb_true_iff, mover_sign, negb_true_iff by assumption. reflexivity.
Qed.

Lemma get_kills_opp (c : Z) :
  on_board (size self) c ->
  Jnp.get false (kills_opp state (size self)) c = true
  <-> opponent_stone state c /\ chain_in_atari (size self) state c = true.
Proof.
  intros H. unfold kills_opp.
  rewrite (JnpFacts.get_zip_with _ _ _ _ 0 false)
    by (rewrite ?in_atari_len; auto; rewrite board_len; exact H).
  rewrite get_in_atari by assumption. fold (tag state c).
  rewrite andb_true_iff, opponent_sign by assumption. reflexivity.
Qed.

(* [is_neighbor_ok] looks for an adjacent cell of one of the three kinds *)
Lemma is_neighbor_ok_spec (xy : Z) :
  on_board (size self) xy ->
  is_neighbor_ok (size self) (map (fun c => c =? 0) (chain_id_board state))
    (has_liberty state (size self)) (kills_opp state (size self)) xy = true
  <-> exists nb, adjacent (size self) xy nb /\
        (tag state nb = 0 \/
         (opponent_stone state nb /\ chain_in_atari (size self) state nb = true) \/
         (mover_stone state nb /\ chain_in_atari (size self) state nb = false)).
Proof.
  intros H. unfold is_neighbor_ok.
  rewrite !JnpFacts.zip_with_map, !JnpFacts.any_map, !orb_true_iff, !existsb_exists.
  split.
  - intros Hex.
    assert (Hnb : exists nb, In nb (_neighbour xy (size self)) /\ nb <> -1 /\
              (Jnp.get false (map (fun c => c =? 0) (chain_id_board state)) nb = true \/
               Jnp.get false (kills_opp state (size self)) nb = true \/
               Jnp.get false (has_liberty state (size self)) nb = true)).
    { destruct Hex as [[(nb & Hin & Hb)|(nb & Hin & Hb)]|(nb & Hin & Hb)];
        apply andb_true_iff in Hb; destruct Hb as [Hne Hb];
        apply negb_true_iff, Z.eqb_neq in Hne; exists nb; auto. }
    destruct Hnb as (nb & Hin & Hne & Hk).
    assert (Hadj : adjacent (size self) xy nb)
      by (apply (_neighbour_adjacent (size self) Hside xy nb H); auto).
    assert (Hon : on_board (size self) nb) by apply Hadj.
    exists nb. split; [exact Hadj|].
    rewrite get_is_empty, get_kills_opp, get_has_liberty, Z.eqb_eq in Hk by assumption.
    exact Hk.
  - intros (nb & Hadj & Hk).
    assert (Hon : on_board (size self) nb) by apply Hadj.
    apply (_neighbour_adjacent (size self) Hside xy nb H) in Hadj.
    destruct Hadj as [Hin Hne].
    apply Z.eqb_neq in Hne.
    rewrite <- (Z.eqb_eq (tag state nb) 0), <- get_is_empty, <- get_kills_opp,
      <- get_has_liberty in Hk by assumption.
    destruct Hk as [Hk|[Hk|Hk]]; [left; left | left; right | right];
      exists nb; (split; [exact Hin|]); rewrite Hne, Hk; reflexivity.
Qed.

Lemma side_sq_nonneg : 0 <= size self * size self.
Proof. destruct Hside. nia. Qed.

Lemma legal_cells_length :
  length (Jnp.zip_with andb (map (fun c => c =? 0) (chain_id_board state))
            (map (is_neighbor_ok (size self) (map (fun c => c =? 0) (chain_id_board state))
                    (has_liberty state (size self)) (kills_opp state (size self)))
                 (Jnp.arange (size self * size self))))
  = Z.to_nat (size self * size self).
Proof.
  rewrite JnpFacts.zip_with_length, !length_map, JnpFacts.arange_length.
  pose proof board_len as Hl. unfold Jnp.len in Hl. lia.
Qed.

Lemma get_legal_cells (xy : Z) :
  on_board (size self) xy ->
  Jnp.get false
    (Jnp.zip_with andb (map (fun c => c =? 0) (chain_id_board state))
       (map (is_neighbor_ok (size self) (map (fun c => c =? 0) (chain_id_board state))
               (has_liberty state (size self)) (kills_opp state (size self)))
            (Jnp.arange (size self * size self)))) xy = true
  <-> playable (size self) state xy.
Proof.
  intros H. pose proof side_sq_nonneg as Hn. pose proof board_len as Hl.
  rewrite (JnpFacts.get_zip_with _ _ _ _ false false).
  - rewrite get_is_empty by assumption.
    rewrite (JnpFacts.get_map_in _ 0) by (rewrite JnpFacts.arange_len; assumption).
    rewrite JnpFacts.get_arange by exact H.
    rewrite andb_true_iff, Z.eqb_eq, is_neighbor_ok_spec by assumption. reflexivity.
  - rewrite !length_map, JnpFacts.arange_length. unfold Jnp.len in Hl. lia.
  - unfold Jnp.len. rewrite length_map. fold (Jnp.len (chain_id_board state)).
    rewrite Hl. exact H.
Qed.

(* the mask, cell by cell, in terms of the program's array [in_atari] *)
Lemma legal_action_mask_bits :
  (ko state = -1 \/ on_board (size self) (ko state)) ->
  Jnp.len (legal_action_mask self state) = size self * size self + 1 /\
  (forall xy, on_board (size self) xy ->
     Jnp.get false (legal_action_mask self state) xy = true
     <-> playable (size self) state xy /\ xy <> ko state) /\
  (on_board (size self) (ko state) ->
     Jnp.get false (legal_action_mask self state) (ko state) = false) /\
  Jnp.get false (legal_action_mask self state) (size self * size self) = true /\
  (forall xy, on_board (size self) xy -> tag state xy <> 0 ->
     Jnp.get false (legal_action_mask self state) xy = false).
Proof.
  intros Hko. pose proof side_sq_nonneg as Hn. pose proof legal_cells_length as Hlen.
  unfold legal_action_mask.
  set (cells := Jnp.zip_with andb _ _) in *.
  set (cells' := if ko state =? -1 then cells else Jnp.at_set cells (ko state) false).
  assert (Hlen' : Jnp.len cells' = size self * size self).
  { unfold Jnp.len, cells'. destruct (ko state =? -1);
      rewrite ?JnpFacts.at_set_length, Hlen; lia. }
  assert (Hget : forall xy, on_board (size self) xy ->
            Jnp.get false (cells' ++ [true]) xy = true
            <-> playable (size self) state xy /\ xy <> ko state).
  { intros xy H. rewrite JnpFacts.get_app_l by (rewrite Hlen'; exact H).
    unfold cells'. destruct (Z.eqb_spec (ko state) (-1)) as [E|E].
    - unfold cells. rewrite get_legal_cells by assumption.
      unfold on_board in H. split; [intros; split; [assumption|lia] | tauto].
    - destruct Hko as [Hko|Hko]; [contradiction|].
      rewrite JnpFacts.get_at_set by (unfold Jnp.len; rewrite Hlen; unfold on_board in *; lia).
      destruct (Z.eqb_spec xy (ko state)) as [->|Hne].
      + split; [discriminate | tauto].
      + unfold cells. rewrite get_legal_cells by assumption. tauto. }
  split; [| split; [exact Hget | split; [| split]]].
  - unfold Jnp.len in *. rewrite length_app. simpl. lia.
  - intros H. destruct (Jnp.get false (cells' ++ [true]) (ko state)) eqn:E; [|reflexivity].
    apply Hget in E; [|exact H]. tauto.
  - rewrite <- Hlen'. apply JnpFacts.get_app_last.
  - intros xy H Ht. destruct (Jnp.get false (cells' ++ [true]) xy) eqn:E; [|reflexivity].
    apply Hget in E; [|exact H]. destruct E as [[E _] _]. contradiction.
Qed.

End Legal.

(** ** The legal-move mask in terms of liberties *)

Lemma adjacent_sym (size a b : Z) : adjacent size a b -> adjacent size b a.
Proof.
  unfold adjacent. intros (Ha & Hb & [[E H]|[E H]]); (split; [exact Hb|]); (split; [exact Ha|]).
  - left. split; [symmetry; exact E|]. rewrite <- H. rewrite <- Z.abs_opp. f_equal. ring.
  - right. split; [symmetry; exact E|]. rewrite <- H. rewrite <- Z.abs_opp. f_equal. ring.
Qed.

Section LegalLiberties.

Variable self : Game.
Variable state : GameState.
Hypothesis Hsize : 0 < size self <= 19.
Hypothesis Hboard : wf_board (size self) (chain_id_board state).
Hypothesis Hexact : tests_exact (size self) state.

(* next to an empty cell, the program's bit says whether the chain has
   exactly one liberty *)
Lemma chain_in_atari_liberties (xy nb : Z) :
  adjacent (size self) xy nb -> tag state xy = 0 -> tag state nb <> 0 ->
  chain_in_atari (size self) state nb = true <-> in_atari_chain (size self) state nb.
Proof.
  intros Hadj Hxy Hnb.
  assert (Hon : on_board (size self) nb) by apply Hadj.
  pose proof (tag_bound (size self) state Hsize Hboard nb Hon) as Ht.
  pose proof (cells_bound (size self) Hsize) as HN.
  unfold chain_in_atari, in_atari_chain.
  assert (Hix : Int32.sub (Int32.abs (tag state nb)) 1 = Z.abs (tag state nb) - 1).
  { rewrite (abs_tag (size self) state Hsize Hboard nb Hon). unfold Int32.sub.
    apply Int32Facts.wrap_small, (in_range_small (size self)). lia. }
  rewrite Hix.
  assert (Hx : 0 <= Z.abs (tag state nb) - 1 < size self * size self) by lia.
  apply (atari_test_single_liberty (size self) state (Z.abs (tag state nb) - 1) Hsize Hboard Hx).
  - exists xy. split; [apply Hadj|]. split; [exact Hxy|]. exists nb.
    split; [exact Hon|]. split; [lia|]. apply adjacent_sym. exact Hadj.
  - destruct Hexact as [Hs|Hf]; [|apply Hf; exact Hx].
    apply small_board_products_fit; [lia | exact Hboard | exact Hx].
Qed.

Lemma playable_liberties (xy : Z) :
  playable (size self) state xy <-> playable_by_liberties (size self) state xy.
Proof.
  unfold playable, playable_by_liberties. split.
  - intros (H0 & nb & Hadj & Hk). split; [exact H0|]. exists nb. split; [exact Hadj|].
    destruct Hk as [Hk|[[Ho Ha]|[Hm Ha]]]; [left; exact Hk | right; left | right; right].
    + split; [exact Ho|]. apply (chain_in_atari_liberties xy nb Hadj H0); [|exact Ha].
      unfold opponent_stone, owned_by in Ho. lia.
    + split; [exact Hm|]. intros Hl.
      apply (chain_in_atari_liberties xy nb Hadj H0) in Hl; [congruence|].
      unfold mover_stone, owned_by in Hm. lia.
  - intros (H0 & nb & Hadj & Hk). split; [exact H0|]. exists nb. split; [exact Hadj|].
    destruct Hk as [Hk|[[Ho Ha]|[Hm Ha]]]; [left; exact Hk | right; left | right; right].
    + split; [exact Ho|]. apply (chain_in_atari_liberties xy nb Hadj H0); [|exact Ha].
      unfold opponent_stone, owned_by in Ho. lia.
    + split; [exact Hm|].
      destruct (chain_in_atari (size self) state nb) eqn:E; [|reflexivity].
      exfalso. apply Ha. apply (chain_in_atari_liberties xy nb Hadj H0); [|exact E].
      unfold mover_stone, owned_by in Hm. lia.
Qed.

End LegalLiberties.



(** ** Removing a chain *)

Lemma wf_boardb_ok (size : Z) (board : list Z) :
  wf_boardb size board = true -> wf_board size board.
Proof.
  unfold wf_boardb, wf_board. rewrite andb_true_iff, Z.eqb_eq, forallb_forall.
  intros [Hl Hf]. split; [exact Hl|]. intros c Hc. apply Hf in Hc.
  apply andb_true_iff in Hc. lia.
Qed.

Lemma count_exact (l : list bool) :
  Jnp.len l < Int32.half -> Jnp.count l = Jnp.sumZ (map Jnp.b2z l).
Proof.
  intros H. unfold Jnp.count, Jnp.sum. apply Int32Facts.wrap_small.
  pose proof (JnpFacts.sumZ_b2z_bounds l). unfold Int32.in_range.
  rewrite Int32Facts.half_val in *. lia.
Qed.

Lemma chain_size_bounds (board : list Z) (id : Z) :
  0 <= chain_size board id <= Jnp.len board.
Proof.
  unfold chain_size. pose proof (JnpFacts.sumZ_b2z_bounds (map (fun c => c =? id) board)) as H.
  unfold Jnp.len in *. rewrite length_map in H. exact H.
Qed.

Lemma count_chain (board : list Z) (id : Z) :
  Jnp.len board < Int32.half ->
  Jnp.count (map (fun c => c =? id) board) = chain_size board id.
Proof.
  intros H. apply count_exact. unfold Jnp.len in *. now rewrite length_map.
Qed.

Lemma num_emptied_bounds (before after : list Z) :
  0 <= num_emptied before after <= Jnp.len before.
Proof.
  unfold num_emptied. pose proof (JnpFacts.sumZ_b2z_bounds (emptied before after)) as H.
  unfold emptied, Jnp.len in *. rewrite JnpFacts.zip_with_length in H. lia.
Qed.

Lemma shrunk_refl (b : list Z) : shrunk b b.
Proof. induction b; constructor; auto. Qed.

Lemma shrunk_length (b0 b : list Z) : shrunk b0 b -> length b = length b0.
Proof. intros H. symmetry. exact (Forall2_length H). Qed.

Lemma shrunk_get (b0 b : list Z) (c : Z) :
  shrunk b0 b -> Jnp.get 0 b c = 0 \/ Jnp.get 0 b c = Jnp.get 0 b0 c.
Proof.
  intros H. unfold Jnp.get, Jnp.len. rewrite (shrunk_length _ _ H).
  set (i := Z.to_nat _). clearbody i. revert i.
  induction H as [|x y b0 b Hxy H IH]; intros [|i]; simpl; auto.
Qed.

Lemma num_emptied_refl (b : list Z) : num_emptied b b = 0.
Proof.
  unfold num_emptied, emptied, Jnp.sumZ. induction b as [|x b IH]; simpl; auto.
  rewrite IH. destruct (x =? 0); reflexivity.
Qed.

Lemma remove_shrunk (b0 b : list Z) (id : Z) :
  shrunk b0 b -> shrunk b0 (Jnp.where_l (map (fun c => c =? id) b) 0 b).
Proof.
  rewrite JnpFacts.where_l_map. unfold shrunk.
  induction 1 as [|x y b0 b Hxy H IH]; simpl; constructor; auto.
  destruct (y =? id); auto.
Qed.

(* removing the chain [id] empties exactly the cells still tagged [id] *)
Lemma remove_num_emptied (b0 b : list Z) (id : Z) :
  id <> 0 -> shrunk b0 b ->
  num_emptied b0 (Jnp.where_l (map (fun c => c =? id) b) 0 b)
  = num_emptied b0 b + chain_size b id.
Proof.
  intros Hid. rewrite JnpFacts.where_l_map. unfold num_emptied, emptied, chain_size, Jnp.sumZ.
  induction 1 as [|x y b0 b Hxy H IH]; cbn [map fold_right Jnp.zip_with]; auto.
  rewrite IH.
  destruct (y =? id) eqn:E.
  - apply Z.eqb_eq in E. subst y. destruct Hxy as [?|<-]; [contradiction|].
    destruct (Z.eqb_spec id 0); [contradiction|]. cbn [Jnp.b2z negb andb]. change (0 =? 0) with true. cbn [Jnp.b2z]. lia.
  - cbn [Jnp.b2z]. lia.
Qed.

Lemma get_removed (b : list Z) (id c : Z) :
  0 <= c < Jnp.len b ->
  Jnp.get 0 (Jnp.where_l (map (fun x => x =? id) b) 0 b) c
  = if Jnp.get 0 b c =? id then 0 else Jnp.get 0 b c.
Proof.
  intros H. rewrite JnpFacts.where_l_map.
  apply (JnpFacts.get_map_in (fun x => if x =? id then 0 else x) 0 0). exact H.
Qed.

Lemma num_emptied_cons (x y : Z) (b0 b : list Z) :
  num_emptied (x :: b0) (y :: b)
  = Jnp.b2z (negb (x =? 0) && (y =? 0)) + num_emptied b0 b.
Proof. reflexivity. Qed.

Lemma b2z_emptied_hit (x : Z) : x <> 0 -> Jnp.b2z (negb (x =? 0) && (0 =? 0)) = 1.
Proof. intros H. destruct (Z.eqb_spec x 0); [contradiction|reflexivity]. Qed.

Lemma emptied_at_least (b0 b : list Z) (k : nat) :
  length b = length b0 -> (k < length b0)%nat ->
  nth k b0 0 <> 0 -> nth k b 0 = 0 -> 1 <= num_emptied b0 b.
Proof.
  revert b k. induction b0 as [|x b0 IH]; intros [|y b] k Hl Hk H0 H1;
    simpl in Hl, Hk; try lia.
  rewrite num_emptied_cons. pose proof (num_emptied_bounds b0 b) as Hb.
  destruct k as [|k]; simpl in H0, H1.
  - subst y. rewrite b2z_emptied_hit by assumption. lia.
  - specialize (IH b k ltac:(lia) ltac:(lia) H0 H1).
    destruct (negb (x =? 0) && (y =? 0)); cbn [Jnp.b2z]; lia.
Qed.

Lemma emptied_unique_nth (b0 b : list Z) (i j : nat) :
  length b = length b0 -> num_emptied b0 b = 1 ->
  (i < length b0)%nat -> (j < length b0)%nat ->
  nth i b0 0 <> 0 -> nth i b 0 = 0 -> nth j b0 0 <> 0 -> nth j b 0 = 0 -> i = j.
Proof.
  revert b i j. induction b0 as [|x b0 IH]; intros [|y b] i j Hl HK Hi Hj;
    simpl in Hl, Hi, Hj; try lia.
  rewrite num_emptied_cons in HK. pose proof (num_emptied_bounds b0 b) as Hb.
  destruct i as [|i], j as [|j]; simpl; intros H0 H1 H0' H1'; auto.
  - exfalso. pose proof (emptied_at_least b0 b j ltac:(lia) ltac:(lia) H0' H1').
    subst y. rewrite b2z_emptied_hit in HK by assumption. lia.
  - exfalso. pose proof (emptied_at_least b0 b i ltac:(lia) ltac:(lia) H0 H1).
    subst y. rewrite b2z_emptied_hit in HK by assumption. lia.
  - f_equal. apply (IH b); try lia; auto.
    pose proof (emptied_at_least b0 b i ltac:(lia) ltac:(lia) H0 H1).
    destruct (negb (x =? 0) && (y =? 0)); cbn [Jnp.b2z] in HK; lia.
Qed.

Lemma captured_cell_unique (b0 b : list Z) (c c' : Z) :
  length b = length b0 -> num_emptied b0 b = 1 ->
  captured_cell b0 b c -> captured_cell b0 b c' -> c = c'.
Proof.
  unfold captured_cell, Jnp.len. intros Hl HK (Hc & Hc0 & Hc1) (Hc' & Hc0' & Hc1').
  rewrite !JnpFacts.get_in_range in * by (unfold Jnp.len; lia).
  assert (E : Z.to_nat c = Z.to_nat c'); [|lia].
  apply (emptied_unique_nth b0 b); auto; lia.
Qed.

Section RemoveStones.

Variable state : GameState.
Hypothesis Hcolor : wf_color state.
Hypothesis Hlen : Jnp.len (chain_id_board state) < Int32.half.

Variable rm_chain_id rm_stone_xy : Z.
Variable ko_may_occur : bool.

Let state' := _remove_stones state rm_chain_id rm_stone_xy ko_may_occur.

Lemma color_index : 0 <= color state < Jnp.len (num_captured_stones state).
Proof. destruct Hcolor as [Hc Hl]. unfold Jnp.len. rewrite Hl. lia. Qed.

Lemma other_index : 0 <= 1 - color state < Jnp.len (num_captured_stones state).
Proof. destruct Hcolor as [Hc Hl]. unfold Jnp.len. rewrite Hl. lia. Qed.

Lemma _remove_stones_board :
  chain_id_board state'
  = map (fun c => if c =? rm_chain_id then 0 else c) (chain_id_board state).
Proof. unfold state', _remove_stones. cbn [chain_id_board]. apply JnpFacts.where_l_map. Qed.

Lemma _remove_stones_captured :
  Jnp.get 0 (num_captured_stones state') (color state)
  = Int32.add (Jnp.get 0 (num_captured_stones state) (color state))
      (chain_size (chain_id_board state) rm_chain_id).
Proof.
  unfold state', _remove_stones. cbn [num_captured_stones].
  rewrite JnpFacts.get_at_add by apply color_index.
  rewrite Z.eqb_refl, count_chain by exact Hlen. reflexivity.
Qed.

Lemma _remove_stones_other :
  Jnp.get 0 (num_captured_stones state') (1 - color state)
  = Jnp.get 0 (num_captured_stones state) (1 - color state).
Proof.
  unfold state', _remove_stones. cbn [num_captured_stones].
  rewrite JnpFacts.get_at_add by (apply color_index || apply other_index).
  destruct (Z.eqb_spec (1 - color state) (color state)) as [E|E]; [|reflexivity].
  destruct Hcolor as [[H|H] _]; lia.
Qed.

Lemma _remove_stones_ko :
  ko state' = if ko_may_occur && (chain_size (chain_id_board state) rm_chain_id =? 1)
              then rm_stone_xy else ko state.
Proof.
  unfold state', _remove_stones. cbn [ko]. rewrite count_chain by exact Hlen. reflexivity.
Qed.

End RemoveStones.

(** C5: removing an opponent chain of [k] stones adds exactly [k] to the
    mover's capture count (in the counter's 32-bit arithmetic, hence literally
    whenever the sum fits), leaves the other count alone, empties exactly the
    [k] cells that carried the chain's tag and keeps the tag of every other
    cell. *)
Theorem C5_removal_empties_exactly_the_chain
  (state : GameState) (rm_chain_id rm_stone_xy : Z) (ko_may_occur : bool) :
  wf_color state ->
  Jnp.len (chain_id_board state) < Int32.half ->
  (Int32.mul rm_chain_id (_opponent_color state) >? 0) = true ->
  let k := chain_size (chain_id_board state) rm_chain_id in
  let state' := _remove_stones state rm_chain_id rm_stone_xy ko_may_occur in
  Jnp.get 0 (num_captured_stones state') (color state)
  = Int32.add (Jnp.get 0 (num_captured_stones state) (color state)) k /\
  (Int32.in_range (Jnp.get 0 (num_captured_stones state) (color state) + k) ->
   Jnp.get 0 (num_captured_stones state') (color state)
   = Jnp.get 0 (num_captured_stones state) (color state) + k) /\
  Jnp.get 0 (num_captured_stones state') (1 - color state)
  = Jnp.get 0 (num_captured_stones state) (1 - color state) /\
  Jnp.len (chain_id_board state') = Jnp.len (chain_id_board state) /\
  (forall c, 0 <= c < Jnp.len (chain_id_board state) ->
     tag state' c = if tag state c =? rm_chain_id then 0 else tag state c) /\
  num_emptied (chain_id_board state) (chain_id_board state') = k /\
  color state' = color state.
Proof.
  intros Hcolor Hlen Hopp k state'.
  assert (Hid : rm_chain_id <> 0) by (eapply Int32Facts.mul_pos_nonzero; eassumption).
  pose proof (_remove_stones_captured state Hcolor Hlen rm_chain_id rm_stone_xy ko_may_occur)
    as Hcap.
  repeat split.
  - exact Hcap.
  - intros Hr. fold state' in Hcap. rewrite Hcap. unfold Int32.add.
    apply Int32Facts.wrap_small. exact Hr.
  - apply _remove_stones_other; assumption.
  - unfold state', Jnp.len. rewrite _remove_stones_board, length_map. reflexivity.
  - intros c Hc. unfold tag, state'. rewrite _remove_stones_board.
    apply (JnpFacts.get_map_in (fun x => if x =? rm_chain_id then 0 else x) 0 0). exact Hc.
  - unfold state', _remove_stones. cbn [chain_id_board].
    rewrite remove_num_emptied by (auto using shrunk_refl).
    rewrite num_emptied_refl. reflexivity.
Qed.

Lemma C5_removal_empties_exactly_the_chain_witness :
  let g := mkGame 5 (1 # 2) 8 in
  let s := step g (step g (init g) 1) 0 in
  let s' := _remove_stones s (-1) 0 false in
  chain_size (chain_id_board s) (-1) = 1 /\
  Jnp.get 0 (num_captured_stones s') (color s)
  = Int32.add (Jnp.get 0 (num_captured_stones s) (color s)) 1 /\
  num_emptied (chain_id_board s) (chain_id_board s') = 1 /\
  tag s' 0 = 0 /\ tag s' 1 = 2.
Proof.
  cbv zeta.
  destruct (C5_removal_empties_exactly_the_chain
              (step (mkGame 5 (1 # 2) 8) (step (mkGame 5 (1 # 2) 8) (init (mkGame 5 (1 # 2) 8)) 1) 0)
              (-1) 0 false)
    as (H1 & _ & _ & _ & H5 & H6 & _).
  - vm_compute. split; [left; reflexivity | reflexivity].
  - vm_compute. reflexivity.
  - vm_compute. reflexivity.
  - split; [vm_compute; reflexivity|]. split; [exact H1|]. split; [exact H6|].
    split; [rewrite H5 by (vm_compute; split; [discriminate|reflexivity]); reflexivity
           |rewrite H5 by (vm_compute; split; [discriminate|reflexivity]); reflexivity].
Defined.

(** ** The removal loop of [_apply_action] *)

Section RemovalLoop.

Variable s0 : GameState.
Variable kmo : bool.
Hypothesis Hcolor : wf_color s0.
Hypothesis Hlen : Jnp.len (chain_id_board s0) < Int32.half.

Lemma removal_inv_start : removal_inv s0 kmo s0.
Proof.
  constructor; auto.
  - apply shrunk_refl.
  - apply Hcolor.
  - now rewrite num_emptied_refl, Z.add_0_r.
  - intros _ H. rewrite num_emptied_refl in H. discriminate H.
Qed.

Lemma removal_inv_step (t : GameState) (id adj : Z) :
  removal_inv s0 kmo t ->
  id <> 0 -> 0 <= adj < Jnp.len (chain_id_board s0) ->
  Jnp.get 0 (chain_id_board s0) adj = id ->
  removal_inv s0 kmo (_remove_stones t id adj kmo).
Proof.
  intros I Hid Hadj Hget.
  assert (Hct : wf_color t).
  { destruct Hcolor as [Hc _]. split; [rewrite (inv_color _ _ _ I); exact Hc|].
    apply (inv_caplen _ _ _ I). }
  assert (Hlt : Jnp.len (chain_id_board t) < Int32.half).
  { unfold Jnp.len in *. rewrite (shrunk_length _ _ (inv_shrunk _ _ _ I)). exact Hlen. }
  pose proof (remove_num_emptied _ _ id Hid (inv_shrunk _ _ _ I)) as HK.
  pose proof (chain_size_bounds (chain_id_board t) id) as Hkb.
  pose proof (num_emptied_bounds (chain_id_board s0) (chain_id_board t)) as HKb.
  assert (Hb' : chain_id_board (_remove_stones t id adj kmo)
                = Jnp.where_l (map (fun c => c =? id) (chain_id_board t)) 0 (chain_id_board t))
    by reflexivity.
  assert (Hcell : captured_cell (chain_id_board s0)
                    (chain_id_board (_remove_stones t id adj kmo)) adj).
  { split; [exact Hadj|]. split; [congruence|].
    rewrite Hb', get_removed
      by (unfold Jnp.len in *; rewrite (shrunk_length _ _ (inv_shrunk _ _ _ I)); exact Hadj).
    destruct (shrunk_get _ _ adj (inv_shrunk _ _ _ I)) as [E|E]; rewrite E.
    - destruct (0 =? id); reflexivity.
    - rewrite Hget, Z.eqb_refl. reflexivity. }
  constructor.
  - apply (inv_color _ _ _ I).
  - apply (inv_history _ _ _ I).
  - apply (inv_pass _ _ _ I).
  - apply (inv_psk _ _ _ I).
  - rewrite Hb'. apply remove_shrunk, (inv_shrunk _ _ _ I).
  - unfold _remove_stones. cbn [num_captured_stones]. rewrite JnpFacts.at_add_length.
    apply (inv_caplen _ _ _ I).
  - rewrite Hb', HK. rewrite <- (inv_color _ _ _ I).
    rewrite (_remove_stones_captured t Hct Hlt). unfold Int32.add.
    rewrite Int32Facts.wrap_idem. rewrite (inv_color _ _ _ I).
    rewrite <- Int32Facts.wrap_add_l, (inv_captured _ _ _ I), Int32Facts.wrap_add_l.
    f_equal. lia.
  - rewrite <- (inv_color _ _ _ I). rewrite (_remove_stones_other t Hct).
    rewrite (inv_color _ _ _ I). apply (inv_other _ _ _ I).
  - intros ->. rewrite (_remove_stones_ko t Hlt). cbn [andb].
    apply (inv_ko_off _ _ _ I). reflexivity.
  - rewrite Hb', HK. intros H0. rewrite (_remove_stones_ko t Hlt).
    assert (E : chain_size (chain_id_board t) id = 0) by lia. rewrite E.
    rewrite andb_false_r. apply (inv_ko_none _ _ _ I). lia.
  - intros Hk H1.
    assert (H1' : num_emptied (chain_id_board s0) (chain_id_board t)
                  + chain_size (chain_id_board t) id = 1)
      by (rewrite <- HK, <- Hb'; exact H1).
    rewrite (_remove_stones_ko t Hlt).
    replace (kmo && (chain_size (chain_id_board t) id =? 1))
      with (chain_size (chain_id_board t) id =? 1) by (rewrite Hk; reflexivity).
    destruct (Z.eqb_spec (chain_size (chain_id_board t) id) 1) as [E|E].
    + exact Hcell.
    + assert (HK1 : num_emptied (chain_id_board s0) (chain_id_board t) = 1) by lia.
      destruct (inv_ko_one _ _ _ I Hk HK1) as (Hr & Hn0 & Hz).
      split; [exact Hr|]. split; [exact Hn0|].
      rewrite Hb', get_removed
        by (unfold Jnp.len in *; rewrite (shrunk_length _ _ (inv_shrunk _ _ _ I)); exact Hr).
      rewrite Hz. destruct (0 =? id); reflexivity.
Qed.

End RemovalLoop.

Lemma fori_loop_4 {X} (body : Z -> X -> X) (x : X) :
  Lax.fori_loop 0 4 body x = body 3 (body 2 (body 1 (body 0 x))).
Proof. reflexivity. Qed.

Lemma capture_phase_unfold (self : Game) (state : GameState) (action : Z) :
  capture_phase self state action = remove_killed (play_start state) action (size self).
Proof. reflexivity. Qed.

Section Play.

Variable self : Game.
Variable state : GameState.
Variable action : Z.
Hypothesis Hside : side_ok (size self).
Hypothesis Hboard : wf_board (size self) (chain_id_board state).
Hypothesis Hcolor : wf_color state.
Hypothesis Haction : on_board (size self) action.

Lemma board_fits : Jnp.len (chain_id_board state) < Int32.half.
Proof. destruct Hboard as [-> _]. apply Hside. Qed.

(* a killed direction points at a cell of the board that holds a stone of
   the opponent *)
Lemma killed_direction (s : GameState) (i : Z) :
  chain_id_board s = chain_id_board state ->
  0 <= i < 4 ->
  Jnp.get false (is_killed s action (size self)) i = true ->
  on_board (size self) (Jnp.get 0 (_neighbour action (size self)) i) /\
  Jnp.get 0 (map (Jnp.get 0 (chain_id_board s)) (_neighbour action (size self))) i
  = Jnp.get 0 (chain_id_board s) (Jnp.get 0 (_neighbour action (size self)) i) /\
  Jnp.get 0 (chain_id_board s) (Jnp.get 0 (_neighbour action (size self)) i) <> 0.
Proof.
  intros Hb Hi Hk. unfold is_killed in Hk.
  destruct (_count s (size self)) as [[np isum] iq].
  rewrite !map_map, !JnpFacts.zip_with_map in Hk.
  assert (Hl : 0 <= i < Jnp.len (_neighbour action (size self)))
    by (unfold Jnp.len; rewrite _neighbour_length; lia).
  rewrite (JnpFacts.get_map_in _ 0 false) in Hk by exact Hl.
  rewrite (JnpFacts.get_map_in _ 0 0) by exact Hl.
  rewrite !andb_true_iff in Hk. destruct Hk as [[[Hne Hm] _] _].
  apply negb_true_iff, Z.eqb_neq in Hne.
  split; [|split; [reflexivity | eapply Int32Facts.mul_pos_nonzero; exact Hm]].
  destruct (_neighbour_entry (size self) Hside action
              (Jnp.get 0 (_neighbour action (size self)) i) Haction) as [E|E];
    [| contradiction | exact E].
  rewrite JnpFacts.get_in_range by exact Hl. apply nth_In.
  rewrite _neighbour_length. lia.
Qed.

Lemma play_start_wf : wf_color (play_start state).
Proof. exact Hcolor. Qed.

(* the loop keeps the invariant through its four iterations *)
Lemma capture_phase_inv :
  removal_inv (play_start state)
    (_ko_may_occur (play_start state) action (size self))
    (capture_phase self state action).
Proof.
  unfold capture_phase, remove_killed. rewrite fori_loop_4.
  set (kmo := _ko_may_occur (play_start state) action (size self)).
  assert (Hstep : forall i t, 0 <= i < 4 ->
            removal_inv (play_start state) kmo t ->
            removal_inv (play_start state) kmo
              (if Jnp.get false (is_killed (play_start state) action (size self)) i
               then _remove_stones t
                      (Jnp.get 0 (map (Jnp.get 0 (chain_id_board (play_start state)))
                                       (_neighbour action (size self))) i)
                      (Jnp.get 0 (_neighbour action (size self)) i) kmo
               else t)).
  { intros i t Hi I.
    destruct (Jnp.get false (is_killed (play_start state) action (size self)) i) eqn:Hk;
      [|exact I].
    destruct (killed_direction (play_start state) i eq_refl Hi Hk) as (Hon & Hid & Hne).
    apply (removal_inv_step (play_start state) kmo play_start_wf board_fits t); auto.
    - rewrite Hid. exact Hne.
    - cbn [play_start chain_id_board with_consecutive_pass_count with_ko].
      destruct Hboard as [-> _]. exact Hon. }
  apply Hstep; [lia|]. apply Hstep; [lia|]. apply Hstep; [lia|]. apply Hstep; [lia|].
  apply removal_inv_start. exact play_start_wf.
Qed.

Lemma _merge_around_xy_frame (i : Z) (s : GameState) (xy sz : Z) :
  ko (_merge_around_xy i s xy sz) = ko s /\
  num_captured_stones (_merge_around_xy i s xy sz) = num_captured_stones s /\
  color (_merge_around_xy i s xy sz) = color s /\
  consecutive_pass_count (_merge_around_xy i s xy sz) = consecutive_pass_count s.
Proof. unfold _merge_around_xy. destruct (_ && _); repeat split. Qed.

Lemma merge_loop_frame (s : GameState) (xy sz : Z) :
  ko (Lax.fori_loop 0 4 (fun i s => _merge_around_xy i s xy sz) s) = ko s /\
  num_captured_stones (Lax.fori_loop 0 4 (fun i s => _merge_around_xy i s xy sz) s)
  = num_captured_stones s /\
  color (Lax.fori_loop 0 4 (fun i s => _merge_around_xy i s xy sz) s) = color s /\
  consecutive_pass_count (Lax.fori_loop 0 4 (fun i s => _merge_around_xy i s xy sz) s)
  = consecutive_pass_count s.
Proof.
  rewrite fori_loop_4.
  destruct (_merge_around_xy_frame 0 s xy sz) as (a0 & b0 & c0 & d0).
  destruct (_merge_around_xy_frame 1 (_merge_around_xy 0 s xy sz) xy sz) as (a1 & b1 & c1 & d1).
  destruct (_merge_around_xy_frame 2 (_merge_around_xy 1 (_merge_around_xy 0 s xy sz) xy sz) xy sz)
    as (a2 & b2 & c2 & d2).
  destruct (_merge_around_xy_frame 3
              (_merge_around_xy 2 (_merge_around_xy 1 (_merge_around_xy 0 s xy sz) xy sz) xy sz)
              xy sz) as (a3 & b3 & c3 & d3).
  repeat split; congruence.
Qed.

(* the ko cell a play leaves behind, in terms of the removal loop *)
Lemma _apply_action_ko :
  ko (_apply_action (with_ko state (-1)) action (size self))
  = if num_emptied (chain_id_board state) (chain_id_board (capture_phase self state action))
       =? 1
    then ko (capture_phase self state action) else -1.
Proof.
  pose proof (inv_color _ _ _ capture_phase_inv) as Hcol.
  pose proof (inv_captured _ _ _ capture_phase_inv) as Hcap.
  pose proof (num_emptied_bounds (chain_id_board state)
                (chain_id_board (capture_phase self state action))) as Hb.
  rewrite capture_phase_unfold in *. unfold play_start in *. unfold _apply_action.
  destruct (merge_loop_frame
              (_set_stone
                 (remove_killed (with_consecutive_pass_count (with_ko state (-1)) 0)
                    action (size self)) action) action (size self))
    as (Hk & Hc & Hcol' & _).
  revert Hcol Hcap Hb Hk Hc Hcol'.
  generalize (remove_killed (with_consecutive_pass_count (with_ko state (-1)) 0)
                action (size self)).
  intros t.
  generalize (Lax.fori_loop 0 4
                (fun (i : Z) (s : GameState) => _merge_around_xy i s action (size self))
                (_set_stone t action)).
  intros m.
  cbn [_set_stone with_chain_id_board with_consecutive_pass_count with_ko
       ko num_captured_stones color chain_id_board].
  intros Hcol Hcap Hb Hk Hc Hcol'.
  assert (Htest : Int32.sub (Jnp.get 0 (num_captured_stones m) (color m))
                    (Jnp.get 0 (num_captured_stones state) (color state))
                  = num_emptied (chain_id_board state) (chain_id_board t)).
  { rewrite Hc, Hcol', Hcol. unfold Int32.sub.
    rewrite <- Int32Facts.wrap_sub_l, Hcap, Int32Facts.wrap_sub_l.
    pose proof board_fits as Hf.
    match goal with |- Int32.wrap ?e = ?k => replace e with k by lia end.
    apply Int32Facts.wrap_small. unfold Int32.in_range.
    rewrite Int32Facts.half_val in *. lia. }
  rewrite Htest.
  destruct (_ =? 1); cbn [with_ko ko]; [exact Hk | reflexivity].
Qed.

Lemma slot_ok (o : bool) (nb : Z) :
  (o = true <-> nb = -1) -> (nb <> -1 -> on_board (size self) nb) ->
  (o || (Int32.mul (Jnp.get 0 (chain_id_board state) nb) (_opponent_color state) >? 0)) = true
  <-> (nb <> -1 -> opponent_stone state nb).
Proof.
  intros Ho Hon. rewrite orb_true_iff. split.
  - intros [H|H] Hne; [apply Ho in H; contradiction|].
    apply (opponent_sign self state Hside Hboard Hcolor nb (Hon Hne)). exact H.
  - intros H. destruct o; [now left|right].
    assert (Hne : nb <> -1) by (intros E; apply Ho in E; discriminate E).
    apply (opponent_sign self state Hside Hboard Hcolor nb (Hon Hne)). auto.
Qed.

(* [_ko_may_occur]: every cell adjacent to the played one holds an opponent
   stone *)
Lemma _ko_may_occur_spec :
  _ko_may_occur state action (size self) = true
  <-> ko_precondition (size self) state action.
Proof.
  destruct (div_mod_cell (size self) Hside action Haction) as (Hx & Hy & _).
  pose proof (side_pos (size self) Hside) as Hp.
  pose proof (fun nb => _neighbour_adjacent (size self) Hside action nb Haction) as Hadj.
  unfold _ko_may_occur, ko_precondition.
  rewrite (_neighbour_cells (size self) Hside action Haction) in *.
  rewrite !Int32Facts.floordiv_nonzero by lia.
  unfold Int32.rem, Int32.add, Int32.sub.
  rewrite (Int32Facts.wrap_small (action / size self))
    by (apply (small_in_range (size self) Hside); nia).
  rewrite (Int32Facts.wrap_small (action mod size self))
    by (apply (small_in_range (size self) Hside); nia).
  rewrite !(Int32Facts.wrap_small (action / size self - 1)),
          !(Int32Facts.wrap_small (action / size self + 1)),
          !(Int32Facts.wrap_small (action mod size self - 1)),
          !(Int32Facts.wrap_small (action mod size self + 1))
    by (apply (small_in_range (size self) Hside); nia).
  cbn [map Jnp.zip_with]. unfold Jnp.all. cbn [forallb]. rewrite !andb_true_iff.
  set (x := action / size self) in *. set (y := action mod size self) in *.
  assert (Hc : forall x' y', cell_at (size self) x' y' <> -1 ->
                 on_board (size self) (cell_at (size self) x' y')).
  { intros x' y' Hne. destruct (cell_at_on_board (size self) x' y' Hne) as (H1 & H2 & ->).
    apply (cell_div_mod (size self) Hside x' y' H1 H2). }
  assert (Hm1 : forall x' y', 0 <= y' < size self ->
            (cell_at (size self) x' y' = -1 <-> ~ 0 <= x' < size self)).
  { intros x' y' Hy'. unfold cell_at.
    destruct (Z.leb_spec 0 x'), (Z.ltb_spec x' (size self)),
      (Z.leb_spec 0 y'), (Z.ltb_spec y' (size self)); cbn [andb]; try lia; nia. }
  assert (Hm2 : forall x' y', 0 <= x' < size self ->
            (cell_at (size self) x' y' = -1 <-> ~ 0 <= y' < size self)).
  { intros x' y' Hx'. unfold cell_at.
    destruct (Z.leb_spec 0 x'), (Z.ltb_spec x' (size self)),
      (Z.leb_spec 0 y'), (Z.ltb_spec y' (size self)); cbn [andb]; try lia; nia. }
  rewrite (slot_ok (x - 1 <? 0) (cell_at (size self) (x - 1) y)),
          (slot_ok (x + 1 >=? size self) (cell_at (size self) (x + 1) y)),
          (slot_ok (y - 1 <? 0) (cell_at (size self) x (y - 1))),
          (slot_ok (y + 1 >=? size self) (cell_at (size self) x (y + 1)));
    try apply Hc.
  - split.
    + intros (H0 & H1 & H2 & H3 & _) nb Hnb. apply Hadj in Hnb.
      destruct Hnb as [Hin Hne]. cbn [In] in Hin.
      destruct Hin as [E|[E|[E|[E|[]]]]]; subst nb; auto.
    + intros H. repeat split; try (intros Hne; apply H, Hadj; (split; [|exact Hne]);
        cbn [In]; auto).
  - rewrite Hm2 by exact Hx. rewrite Z.geb_leb, Z.leb_le. lia.
  - rewrite Hm2 by exact Hx. rewrite Z.ltb_lt. lia.
  - rewrite Hm1 by exact Hy. rewrite Z.geb_leb, Z.leb_le. lia.
  - rewrite Hm1 by exact Hy. rewrite Z.ltb_lt. lia.
Qed.

End Play.

Lemma step_ko (self : Game) (state : GameState) (action : Z) :
  ko (step self state action)
  = if action <? size self * size self
    then ko (_apply_action (with_ko state (-1)) action (size self))
    else -1.
Proof.
  unfold step. generalize (_apply_action (with_ko state (-1)) action (size self)).
  intros X. destruct (action <? size self * size self); reflexivity.
Qed.

(** C2: after [step], the ko cell is the captured cell exactly when the
    action was a play that emptied one cell in total over its four directions
    and every cell adjacent to the played one held an opponent stone
    beforehand; after a pass, and after a play capturing no stone or several,
    or next to an empty or own cell, ko is none (-1). *)
Theorem C2_ko_after_step (self : Game) (state : GameState) (action : Z) :
  side_ok (size self) ->
  wf_board (size self) (chain_id_board state) ->
  wf_color state ->
  (size self * size self <= action -> ko (step self state action) = -1) /\
  (on_board (size self) action ->
   let after := chain_id_board (capture_phase self state action) in
   let total := num_emptied (chain_id_board state) after in
   (total = 1 /\ ko_precondition (size self) state action ->
      captured_cell (chain_id_board state) after (ko (step self state action)) /\
      forall c, captured_cell (chain_id_board state) after c ->
                c = ko (step self state action)) /\
   (~ (total = 1 /\ ko_precondition (size self) state action) ->
      ko (step self state action) = -1)).
Proof.
  intros Hside Hboard Hcolor. split.
  - intros Hpass. rewrite step_ko.
    destruct (Z.ltb_spec action (size self * size self)); [lia | reflexivity].
  - intros Haction after total.
    pose proof (capture_phase_inv self state action Hside Hboard Hcolor Haction) as I.
    pose proof (_ko_may_occur_spec self state action Hside Hboard Hcolor Haction) as Hkmo.
    change (_ko_may_occur (play_start state) action (size self))
      with (_ko_may_occur state action (size self)) in I.
    assert (Hko : ko (step self state action)
                  = if total =? 1 then ko (capture_phase self state action) else -1).
    { rewrite step_ko. unfold on_board in Haction.
      destruct (Z.ltb_spec action (size self * size self)); [|lia].
      apply _apply_action_ko; assumption. }
    split.
    + intros [Htot Hpre]. rewrite Hko, Htot. cbn [Z.eqb Pos.eqb].
      apply Hkmo in Hpre.
      pose proof (inv_ko_one _ _ _ I Hpre Htot) as Hcell.
      split; [exact Hcell|]. intros c Hc.
      apply (captured_cell_unique (chain_id_board state) after); auto.
      apply (shrunk_length _ _ (inv_shrunk _ _ _ I)).
    + intros Hn. rewrite Hko. destruct (Z.eqb_spec total 1) as [Htot|]; [|reflexivity].
      destruct (_ko_may_occur state action (size self)) eqn:Ek.
      * exfalso. apply Hn. split; [exact Htot | apply Hkmo; reflexivity].
      * apply (inv_ko_off _ _ _ I). reflexivity.
Qed.

(** ** The ko position: the mask and the ko cell on a concrete board *)

Lemma side_ok_5 : side_ok 5.
Proof. unfold side_ok. rewrite Int32Facts.half_val. lia. Qed.

Lemma ko_position_wf :
  wf_board 5 (chain_id_board ko_position) /\ wf_color ko_position.
Proof.
  split; [apply wf_boardb_ok; reflexivity|]. split; [left; reflexivity | reflexivity].
Qed.

Lemma C2_ko_after_step_witness :
  ko (step game5 ko_position 7) = 6 /\ ko (step game5 ko_position 25) = -1.
Proof.
  destruct (C2_ko_after_step game5 ko_position 7 side_ok_5
              (proj1 ko_position_wf) (proj2 ko_position_wf)) as [_ Hplay].
  destruct (C2_ko_after_step game5 ko_position 25 side_ok_5
              (proj1 ko_position_wf) (proj2 ko_position_wf)) as [Hpass _].
  split.
  - assert (Hon : on_board (size game5) 7) by (vm_compute; split; [discriminate|reflexivity]).
    destruct (Hplay Hon) as [Hko _].
    destruct Hko as [_ Huniq].
    + split; [reflexivity|].
      apply (_ko_may_occur_spec game5 ko_position 7 side_ok_5
               (proj1 ko_position_wf) (proj2 ko_position_wf) Hon).
      reflexivity.
    + symmetry. apply Huniq. vm_compute.
      split; [split; [discriminate|reflexivity]|]. split; [discriminate|reflexivity].
  - apply Hpass. vm_compute. discriminate.
Defined.



Lemma atari_position_liberty : chain_liberty 5 atari_position 0 5.
Proof.
  split; [vm_compute; split; [discriminate|reflexivity]|].
  split; [vm_compute; reflexivity|].
  exists 0. split; [vm_compute; split; [discriminate|reflexivity]|].
  split; [vm_compute; reflexivity|].
  split; [vm_compute; split; [discriminate|reflexivity]|].
  split; [vm_compute; split; [discriminate|reflexivity]|].
  right. split; vm_compute; reflexivity.
Qed.

Lemma C4_atari_identity_witness :
  single_liberty 5 atari_position 0 /\
  Int32.sub (Int32.floordiv (idx_squared_sum_of 5 atari_position 0)
                            (idx_sum_of 5 atari_position 0)) 1 = 5 /\
  atari_test (_count atari_position 5) 0 = true.
Proof.
  assert (Hs : 0 < 5 <= 19) by lia.
  assert (Hb : wf_board 5 (chain_id_board atari_position))
    by (apply wf_boardb_ok; vm_compute; reflexivity).
  assert (Hx : 0 <= 0 < 5 * 5) by lia.
  destruct (C4_atari_identity 5 atari_position 0 Hs Hb Hx
              (ex_intro _ 5 atari_position_liberty)) as (Hiff & Hdiv & Htest).
  assert (E : idx_sum_of 5 atari_position 0 * idx_sum_of 5 atari_position 0
              = idx_squared_sum_of 5 atari_position 0 * num_pseudo_of 5 atari_position 0)
    by (vm_compute; reflexivity).
  split; [apply Hiff; exact E|].
  split; [apply (Hdiv E 5 atari_position_liberty)|].
  vm_compute. reflexivity.
Defined.

(** ** The history ring *)

Section Ring.

Context {A : Type}.
Variable k : nat.
Hypothesis Hk : (0 < k)%nat.

Lemma concat_rows_length (rows : list (list A)) :
  rows_of_width k rows -> length (concat rows) = (length rows * k)%nat.
Proof.
  induction 1 as [|r rows Hr H IH]; simpl; [reflexivity|].
  rewrite length_app, IH, Hr. reflexivity.
Qed.

Lemma chunks_concat (rows : list (list A)) :
  rows_of_width k rows -> Jnp.chunks (length rows) k (concat rows) = rows.
Proof.
  induction 1 as [|r rows Hr H IH]; simpl; [reflexivity|].
  rewrite firstn_app, skipn_app, Hr, Nat.sub_diag, firstn_O, skipn_O, app_nil_r.
  rewrite firstn_all2, skipn_all2 by lia. simpl. rewrite IH. reflexivity.
Qed.

Lemma roll_rows (front : list (list A)) (back : list A) :
  rows_of_width k front -> length back = k ->
  Jnp.roll (concat (front ++ [back])) (Z.of_nat k) = concat (back :: front).
Proof.
  intros Hf Hb. unfold Jnp.roll, Jnp.len.
  rewrite concat_app. simpl concat. rewrite app_nil_r.
  rewrite length_app, Hb, (concat_rows_length front Hf).
  destruct (Z.eqb_spec (Z.of_nat (length front * k + k)) 0) as [E|_]; [lia|].
  destruct front as [|r front].
  - simpl. rewrite Z.mod_same by lia. simpl.
    rewrite Nat.sub_0_r. rewrite skipn_all2, firstn_all2 by lia.
    rewrite app_nil_r. reflexivity.
  - rewrite Z.mod_small by (simpl length; nia).
    rewrite Nat2Z.id. replace (length (r :: front) * k + k - k)%nat
      with (length (concat (r :: front))) by (rewrite (concat_rows_length _ Hf); lia).
    rewrite skipn_app, firstn_app, Nat.sub_diag, skipn_O, firstn_O, app_nil_r.
    rewrite skipn_all2, firstn_all2 by lia. reflexivity.
Qed.

(* rolling the flattened ring by one row width moves every row down by one *)
Lemma roll2d_rows (h : list (list A)) :
  h <> [] -> rows_of_width k h ->
  Jnp.roll2d h (Z.of_nat k) = last h [] :: removelast h.
Proof.
  intros Hne Hw. destruct (exists_last Hne) as (front & back & ->).
  rewrite last_last, removelast_last.
  apply Forall_app in Hw. destruct Hw as [Hf Hb].
  assert (Hbk : length back = k) by (inversion Hb; assumption).
  unfold Jnp.roll2d. rewrite roll_rows by assumption.
  assert (Hw : length (hd [] (front ++ [back])) = k).
  { destruct front as [|r front]; simpl; [exact Hbk|]. inversion Hf; assumption. }
  rewrite Hw.
  replace (length (front ++ [back])) with (length (back :: front))
    by (rewrite length_app; simpl; lia).
  apply chunks_concat. constructor; assumption.
Qed.

End Ring.

(** ** Fields a play leaves alone *)

Lemma remove_killed_frame (s : GameState) (xy sz : Z) :
  consecutive_pass_count (remove_killed s xy sz) = consecutive_pass_count s /\
  board_history (remove_killed s xy sz) = board_history s /\
  color (remove_killed s xy sz) = color s.
Proof.
  unfold remove_killed. rewrite fori_loop_4.
  repeat match goal with
  | |- context [if ?c then _ else _] => destruct c
  end; repeat split.
Qed.

Lemma merge_loop_history (s : GameState) (xy sz : Z) :
  board_history (Lax.fori_loop 0 4 (fun i s => _merge_around_xy i s xy sz) s)
  = board_history s.
Proof.
  rewrite fori_loop_4. unfold _merge_around_xy.
  repeat match goal with
  | |- context [if ?c then _ else _] => destruct c
  end; reflexivity.
Qed.

Lemma _apply_action_frame (s : GameState) (action sz : Z) :
  consecutive_pass_count (_apply_action s action sz) = 0 /\
  board_history (_apply_action s action sz) = board_history s /\
  color (_apply_action s action sz) = color s.
Proof.
  unfold _apply_action.
  destruct (remove_killed_frame (with_consecutive_pass_count s 0) action sz) as (Hp & Hh & Hc).
  destruct (merge_loop_frame
              (_set_stone (remove_killed (with_consecutive_pass_count s 0) action sz) action)
              action sz) as (_ & _ & Hc' & Hp').
  pose proof (merge_loop_history
                (_set_stone (remove_killed (with_consecutive_pass_count s 0) action sz) action)
                action sz) as Hh'.
  revert Hp Hh Hc Hc' Hp' Hh'.
  generalize (remove_killed (with_consecutive_pass_count s 0) action sz). intros t.
  generalize (Lax.fori_loop 0 4
                (fun (i : Z) (s0 : GameState) => _merge_around_xy i s0 action sz)
                (_set_stone t action)).
  intros m.
  cbn [_set_stone with_chain_id_board with_consecutive_pass_count
       consecutive_pass_count board_history color].
  intros Hp Hh Hc Hc' Hp' Hh'.
  destruct (_ =? 1); cbn [with_ko consecutive_pass_count board_history color];
    rewrite Hp', Hh', Hc', Hp, Hh, Hc; repeat split.
Qed.

(* the ring a step leaves: the old ring rolled by one row, the new snapshot
   written over row 0 *)
Lemma step_history_eq (self : Game) (state : GameState) (action : Z) :
  board_history (step self state action)
  = Jnp.at_set (Jnp.roll2d (board_history state) (size self * size self)) 0
      (map (Jnp.clip (-1) 1) (chain_id_board (step self state action))).
Proof.
  destruct (_apply_action_frame (with_ko state (-1)) action (size self)) as (_ & Hh & _).
  unfold step. revert Hh.
  generalize (_apply_action (with_ko state (-1)) action (size self)). intros X Hh.
  destruct (action <? size self * size self);
    cbn [board_history chain_id_board with_is_psk with_board_history with_color
         _apply_pass with_consecutive_pass_count with_ko] in *;
    [rewrite Hh|]; reflexivity.
Qed.

Lemma step_history_rows (self : Game) (state : GameState) (action : Z) :
  length (board_history (step self state action)) = length (board_history state).
Proof.
  rewrite step_history_eq, JnpFacts.at_set_length. unfold Jnp.roll2d.
  apply chunks_length.
Qed.

(* the ring after a step: the new snapshot in front, the oldest row dropped *)
Lemma step_history (self : Game) (state : GameState) (action : Z) :
  0 < size self ->
  board_history state <> [] ->
  rows_of_width (Z.to_nat (size self * size self)) (board_history state) ->
  board_history (step self state action)
  = map (Jnp.clip (-1) 1) (chain_id_board (step self state action))
    :: removelast (board_history state).
Proof.
  intros Hs Hne Hw. rewrite step_history_eq.
  assert (Hk : (0 < Z.to_nat (size self * size self))%nat) by nia.
  pose proof (roll2d_rows (Z.to_nat (size self * size self)) Hk
                (board_history state) Hne Hw) as E.
  rewrite Z2Nat.id in E by nia. rewrite E.
  reflexivity.
Qed.

(** ** Superko detection *)

Lemma same_row_distance (row : list Z) :
  Jnp.sum (Jnp.zip_with (fun a b => Int32.abs (Int32.sub a b)) row row) = 0.
Proof.
  unfold Jnp.sum.
  assert (E : Jnp.sumZ (Jnp.zip_with (fun a b => Int32.abs (Int32.sub a b)) row row) = 0).
  { induction row as [|x row IH]; [reflexivity|].
    cbn [Jnp.zip_with]. unfold Jnp.sumZ in *. cbn [fold_right]. rewrite IH.
    unfold Int32.sub. rewrite Z.sub_diag. reflexivity. }
  rewrite E. reflexivity.
Qed.

(* a play that recreates a retained snapshot sets the flag *)
Lemma step_detects_repetition (self : Game) (state : GameState) (action : Z) :
  0 < size self ->
  board_history state <> [] ->
  rows_of_width (Z.to_nat (size self * size self)) (board_history state) ->
  action < size self * size self ->
  In (map (Jnp.clip (-1) 1) (chain_id_board (step self state action)))
     (removelast (board_history state)) ->
  is_psk (step self state action) = true.
Proof.
  intros Hs Hne Hw Ha Hin.
  pose proof (step_history self state action Hs Hne Hw) as Hh.
  assert (Hp : consecutive_pass_count (step self state action) = 0).
  { unfold step. cbn [consecutive_pass_count with_is_psk with_board_history with_color].
    destruct (Z.ltb_spec action (size self * size self)); [|lia].
    apply (_apply_action_frame (with_ko state (-1)) action (size self)). }
  assert (Hq : is_psk (step self state action)
               = _check_PSK (with_is_psk (step self state action) false)).
  { reflexivity. }
  rewrite Hq. unfold _check_PSK.
  cbn [consecutive_pass_count board_history with_is_psk].
  rewrite Hp, Hh. cbn [tl]. change (0 =? 0) with true. cbn [andb].
  rewrite JnpFacts.get_in_range by (unfold Jnp.len; simpl length; lia).
  cbn [Z.to_nat nth].
  rewrite JnpFacts.any_map. apply existsb_exists.
  exists (map (Jnp.clip (-1) 1) (chain_id_board (step self state action))).
  split; [exact Hin|]. rewrite same_row_distance. reflexivity.
Qed.

(** ** The flood fill of [_count_ji] terminates *)

Lemma fill_shrinks (g : list Z -> bool) (b : list Z) (nbrs : list (list Z)) :
  let mask := Jnp.zip_with (fun c nbs => (c =? 0) && g nbs) b nbrs in
  (zeros (Jnp.where_l mask (-1)%Z b) <= zeros b)%nat /\
  (Jnp.any mask = true -> (zeros (Jnp.where_l mask (-1)%Z b) < zeros b)%nat).
Proof.
  revert nbrs. unfold zeros, Jnp.any.
  induction b as [|c b IH]; intros [|nb nbrs]; cbn [Jnp.zip_with Jnp.where_l filter existsb length].
  - split; [lia | discriminate].
  - split; [lia | discriminate].
  - split; [lia | discriminate].
  - destruct (IH nbrs) as [Hle Hlt].
    destruct (Z.eqb_spec c 0) as [->|Hc]; cbn [andb].
    + destruct (g nb); cbn [orb length filter Z.eqb].
      * split; [lia | intros _; lia].
      * split; [lia | intros H; apply Hlt in H; lia].
    + apply Z.eqb_neq in Hc. rewrite Hc. cbn [orb]. split; [lia | exact Hlt].
Qed.

Lemma fill_opp_shrinks (sz : Z) (b : list Z) (flag : bool) :
  (zeros (fst (fill_opp sz (b, flag))) <= zeros b)%nat /\
  (snd (fill_opp sz (b, flag)) = true ->
   (zeros (fst (fill_opp sz (b, flag))) < zeros b)%nat).
Proof.
  unfold fill_opp, is_opp_neighbours. cbn [fst snd].
  apply (fill_shrinks
           (fun nbs => Jnp.any (map (fun nb => (Jnp.get 0 b nb =? -1) && negb (nb =? -1)) nbs))).
Qed.

Lemma flood_fill_terminates (sz : Z) (fuel : nat) :
  forall (b : list Z) (flag : bool),
  (zeros b + 2 <= fuel)%nat ->
  exists b', Lax.while_loop fuel snd (fill_opp sz) (b, flag) = Some (b', false).
Proof.
  induction fuel as [|fuel IH]; intros b flag Hf; [lia|].
  cbn [Lax.while_loop snd]. destruct flag.
  - destruct (fill_opp_shrinks sz b true) as [Hle Hlt].
    destruct (fill_opp sz (b, true)) as [b1 f1] eqn:E. cbn [fst snd] in *.
    destruct f1.
    + apply IH. specialize (Hlt eq_refl). lia.
    + destruct fuel as [|fuel]; [lia|]. cbn [Lax.while_loop snd]. now exists b1.
  - now exists b.
Qed.

Lemma where_l_zeros_le (c : list bool) (v : Z) (b : list Z) :
  (length (Jnp.where_l c v b) <= length b)%nat.
Proof. rewrite JnpFacts.where_l_length. lia. Qed.

Lemma zeros_le_length (b : list Z) : (zeros b <= length b)%nat.
Proof. unfold zeros. apply filter_length_le. Qed.

Lemma _count_ji_returns (fuel : nat) (state : GameState) (col sz : Z) :
  (length (chain_id_board state) + 2 <= fuel)%nat ->
  exists n, _count_ji fuel state col sz = Some n.
Proof.
  intros Hf. unfold _count_ji.
  set (board := Jnp.where_l _ (-1) _).
  assert (Hb : (zeros board <= length (chain_id_board state))%nat).
  { etransitivity; [apply zeros_le_length|]. unfold board.
    rewrite !JnpFacts.where_l_length, !length_map. lia. }
  destruct (flood_fill_terminates sz fuel board true ltac:(lia)) as (b' & ->).
  eauto.
Qed.

Lemma _count_point_returns (fuel : nat) (state : GameState) (sz : Z) :
  (length (chain_id_board state) + 2 <= fuel)%nat ->
  exists sb sw, _count_point fuel state sz = Some [sb; sw].
Proof.
  intros Hf. unfold _count_point.
  destruct (_count_ji_returns fuel state 1 sz Hf) as (jb & ->).
  destruct (_count_ji_returns fuel state (-1) sz Hf) as (jw & ->).
  eauto.
Qed.

Lemma step_color (self : Game) (state : GameState) (action : Z) :
  color state = 0 \/ color state = 1 ->
  color (step self state action) = 1 - color state.
Proof.
  intros Hc. unfold step. cbn [color with_is_psk with_board_history with_color].
  set (s1 := if action <? size self * size self then _ else _).
  assert (E : color s1 = color state).
  { unfold s1. destruct (action <? size self * size self).
    - apply (_apply_action_frame (with_ko state (-1)) action (size self)).
    - reflexivity. }
  rewrite E. destruct Hc as [-> | ->]; reflexivity.
Qed.

(** C3: a play whose resulting board equals one of the seven previous
    snapshots kept in the ring sets the superko flag and makes the state
    terminal; [terminal_values] then returns -1 for the player who made the
    move and +1 for the other. *)
Theorem C3_superko_repetition_loses
  (self : Game) (state : GameState) (action : Z) (fuel : nat) :
  0 < size self ->
  color state = 0 \/ color state = 1 ->
  length (board_history state) = 8%nat ->
  rows_of_width (Z.to_nat (size self * size self)) (board_history state) ->
  action < size self * size self ->
  In (map (Jnp.clip (-1) 1) (chain_id_board (step self state action)))
     (firstn 7 (board_history state)) ->
  (length (chain_id_board (step self state action)) + 2 <= fuel)%nat ->
  is_psk (step self state action) = true /\
  is_terminal self (step self state action) = true /\
  exists r, terminal_values fuel self (step self state action) = Some r /\
            Jnp.get 0 r (color state) = -1 /\
            Jnp.get 0 r (1 - color state) = 1.
Proof.
  intros Hs Hc Hl Hw Ha Hin Hf.
  assert (Hne : board_history state <> []) by (intros E; rewrite E in Hl; discriminate Hl).
  assert (Hpsk : is_psk (step self state action) = true).
  { apply step_detects_repetition; auto.
    rewrite removelast_firstn_len, Hl. exact Hin. }
  split; [exact Hpsk|]. split.
  - unfold is_terminal. rewrite Hpsk. apply orb_true_r.
  - unfold terminal_values.
    destruct (_count_point_returns fuel (step self state action) (size self) Hf)
      as (sb & sw & ->).
    rewrite Hpsk, (step_color self state action Hc).
    eexists. split; [reflexivity|].
    destruct Hc as [-> | ->]; split; reflexivity.
Qed.

Lemma C3_superko_repetition_loses_witness :
  is_psk (step game5 repeat_position 7) = true /\
  is_terminal game5 (step game5 repeat_position 7) = true /\
  exists r, terminal_values 27 game5 (step game5 repeat_position 7) = Some r /\
            Jnp.get 0 r (color repeat_position) = -1 /\
            Jnp.get 0 r (1 - color repeat_position) = 1.
Proof.
  apply (C3_superko_repetition_loses game5 repeat_position 7 27).
  - reflexivity.
  - left. reflexivity.
  - reflexivity.
  - vm_compute. repeat constructor.
  - reflexivity.
  - vm_compute. left. reflexivity.
  - vm_compute. lia.
Defined.

(** ** Scenarios *)

Lemma corner_capture_checked : corner_capture_checks [2; 3; 4; 5; 6; 7] = true.
Proof. vm_compute. reflexivity. Qed.

Lemma corner_capture_checks_eq (sides : list Z) :
  corner_capture_checks sides
  = forallb
      (fun n =>
         forallb (fun '(c, a, b) => corner_capture_check (mkGame n (15 # 2) 8) c a b)
                 (corner_cases n))
      sides.
Proof. reflexivity. Qed.

Lemma corner_capture_check_ok (self : Game) (corner first second : Z) :
  corner_capture_check self corner first second = true ->
  corner_capture_outcome self corner first second.
Proof.
  unfold corner_capture_check, corner_capture_outcome. cbv zeta.
  generalize (step self
                (step self (step self (corner_position self corner first) second)
                   (size self * size self)) (size self * size self)).
  intros s''.
  generalize (step self (corner_position self corner first) second).
  intros s'.
  generalize (legal_action_mask self s') (legal_action_mask self s'').
  intros m' m''.
  generalize (corner_position self corner first). intros s.
  rewrite !andb_true_iff, !negb_true_iff, !Z.eqb_eq.
  intros (((((((H1 & H2) & H3) & H4) & H5) & H6) & H7) & H8).
  repeat split; assumption.
Qed.




(** C8 fails on the code: after two passes on the empty 5x5 board the two
    area scores are 25 and 25, never 0 and 0. *)
Lemma C8_counterexample :
  _count_point 2 two_passes 5 = Some [25; 25] /\
  forall fuel, _count_point fuel two_passes 5 <> Some [0; 0].
Proof.
  split; [vm_compute; reflexivity|].
  intros [|[|fuel]]; vm_compute; discriminate.
Qed.

(** C8, amended: for the 5x5 game with komi 0.5, two passes from the empty
    board make the state terminal; both area scores are 25, every empty cell
    counting for both colours, and [terminal_values] returns (-1, +1). *)
Theorem C8_two_passes_on_empty_board (fuel : nat) :
  (2 <= fuel)%nat ->
  komi game5 = 1 # 2 /\
  chain_id_board (init game5) = Jnp.full 25 0 /\
  is_terminal game5 two_passes = true /\
  _count_point fuel two_passes 5 = Some [25; 25] /\
  terminal_values fuel game5 two_passes = Some [-1; 1].
Proof.
  intros Hf. destruct fuel as [|[|fuel]]; [lia | lia |].
  repeat split; vm_compute; reflexivity.
Qed.

Lemma C8_two_passes_on_empty_board_witness :
  is_terminal game5 two_passes = true /\
  _count_point 2 two_passes 5 = Some [25; 25] /\
  terminal_values 2 game5 two_passes = Some [-1; 1].
Proof.
  destruct (C8_two_passes_on_empty_board 2) as (_ & _ & H1 & H2 & H3); [lia|].
  split; [exact H1|]. split; [exact H2 | exact H3].
Defined.

(** ** Further properties of the engine *)

(** X1: [_neighbour] returns four entries, each -1 or a cell of the board,
    and its entries other than -1 are exactly the cells orthogonally adjacent
    to the given one. *)
Theorem X1_neighbour_is_adjacency (size xy nb : Z) :
  side_ok size -> on_board size xy ->
  length (_neighbour xy size) = 4%nat /\
  (In nb (_neighbour xy size) -> nb = -1 \/ on_board size nb) /\
  ((In nb (_neighbour xy size) /\ nb <> -1) <-> adjacent size xy nb).
Proof.
  intros Hs Hxy. split; [reflexivity|]. split.
  - apply _neighbour_entry; assumption.
  - apply _neighbour_adjacent; assumption.
Qed.

Lemma X1_neighbour_is_adjacency_witness :
  _neighbour 0 5 = [-1; 5; -1; 1] /\ adjacent 5 0 5.
Proof.
  split; [reflexivity|].
  assert (H0 : on_board 5 0) by (vm_compute; split; [discriminate|reflexivity]).
  destruct (X1_neighbour_is_adjacency 5 0 5 side_ok_5 H0) as (_ & _ & H).
  apply H. split; [vm_compute; auto | discriminate].
Defined.

(** X2: a step keeps the number of rows of the history ring, and on a ring
    of rows as wide as the board it puts the clipped new board in row 0 and
    moves every older row down by one, dropping the oldest. *)
Theorem X2_step_pushes_snapshot (self : Game) (state : GameState) (action : Z) :
  0 < size self ->
  board_history state <> [] ->
  rows_of_width (Z.to_nat (size self * size self)) (board_history state) ->
  length (board_history (step self state action)) = length (board_history state) /\
  board_history (step self state action)
  = map (Jnp.clip (-1) 1) (chain_id_board (step self state action))
    :: removelast (board_history state).
Proof.
  intros Hs Hne Hw. split; [apply step_history_rows | apply step_history; assumption].
Qed.

Lemma X2_step_pushes_snapshot_witness :
  board_history (step game5 (init game5) 12)
  = map (Jnp.clip (-1) 1) (chain_id_board (step game5 (init game5) 12))
    :: removelast (board_history (init game5)).
Proof.
  apply (X2_step_pushes_snapshot game5 (init game5) 12).
  - reflexivity.
  - discriminate.
  - vm_compute. repeat constructor.
Defined.

(** X3: the flood fill of [_count_ji] ends: with fuel for two rounds more
    than the board has cells, [_count_ji] and [_count_point] return. *)
Theorem X3_area_count_terminates (fuel : nat) (state : GameState) (col sz : Z) :
  (length (chain_id_board state) + 2 <= fuel)%nat ->
  (exists n, _count_ji fuel state col sz = Some n) /\
  (exists sb sw, _count_point fuel state sz = Some [sb; sw]).
Proof.
  intros Hf. split; [apply _count_ji_returns | apply _count_point_returns]; exact Hf.
Qed.

Lemma X3_area_count_terminates_witness :
  (exists n, _count_ji 27 ko_position 1 5 = Some n) /\
  (exists sb sw, _count_point 27 ko_position 5 = Some [sb; sw]).
Proof. apply (X3_area_count_terminates 27 ko_position 1 5). vm_compute. lia. Defined.

(** X4: [_ko_may_occur] is true exactly when every cell adjacent to the
    played cell holds a stone of the opponent. *)
Theorem X4_ko_may_occur_is_adjacency (self : Game) (state : GameState) (action : Z) :
  side_ok (size self) ->
  wf_board (size self) (chain_id_board state) ->
  wf_color state ->
  on_board (size self) action ->
  _ko_may_occur state action (size self) = true
  <-> ko_precondition (size self) state action.
Proof. intros. apply _ko_may_occur_spec; assumption. Qed.

Lemma X4_ko_may_occur_is_adjacency_witness : ko_precondition 5 ko_position 7.
Proof.
  apply (X4_ko_may_occur_is_adjacency game5 ko_position 7 side_ok_5
           (proj1 ko_position_wf) (proj2 ko_position_wf)).
  - vm_compute. split; [discriminate|reflexivity].
  - reflexivity.
Defined.



(** X6: on a well-formed board of side at most 19 the three arrays [_count]
    returns hold, for chain [x], the number of pairs of a member cell and an
    empty neighbour, the sum of the 1-based indices of those neighbours and
    the sum of their squares, without 32-bit overflow; the neighbours listed
    are exactly the liberties of the chain. *)
Theorem X6_count_sums (size : Z) (state : GameState) (x : Z) :
  0 < size <= 19 ->
  wf_board size (chain_id_board state) ->
  0 <= x < size * size ->
  num_pseudo_of size state x = Jnp.len (pseudo_liberties size state x) /\
  idx_sum_of size state x
  = Jnp.sumZ (map (fun L => L + 1) (pseudo_liberties size state x)) /\
  idx_squared_sum_of size state x
  = Jnp.sumZ (map (fun L => (L + 1) * (L + 1)) (pseudo_liberties size state x)) /\
  (forall L, In L (pseudo_liberties size state x) <-> chain_liberty size state x L).
Proof.
  intros Hs Hb Hx.
  destruct (_count_exact size state Hs Hb x Hx) as (H1 & H2 & H3).
  split; [exact H1|]. split; [exact H2|]. split; [exact H3|].
  intros L. apply (pseudo_liberties_spec size state Hs x L).
Qed.

Lemma X6_count_sums_witness :
  num_pseudo_of 5 atari_position 0 = 1 /\
  idx_sum_of 5 atari_position 0 = 6 /\
  idx_squared_sum_of 5 atari_position 0 = 36.
Proof.
  assert (Hb : wf_board 5 (chain_id_board atari_position))
    by (apply wf_boardb_ok; vm_compute; reflexivity).
  destruct (X6_count_sums 5 atari_position 0 ltac:(lia) Hb ltac:(lia)) as (H1 & H2 & H3 & _).
  rewrite H1, H2, H3. vm_compute. repeat split.
Defined.

Lemma step_play_resets_pass_count (self : Game) (state : GameState) (action : Z) :
  action < size self * size self ->
  consecutive_pass_count (step self state action) = 0.
Proof.
  intros Ha.
  destruct (_apply_action_frame (with_ko state (-1)) action (size self)) as (Hp & _ & _).
  unfold step. revert Hp.
  generalize (_apply_action (with_ko state (-1)) action (size self)). intros X Hp.
  destruct (Z.ltb_spec action (size self * size self)); [|lia].
  exact Hp.
Qed.

(** X7: two consecutive passes end the game: whatever the state, if its pass
    counter is a non-negative 32-bit value with room for two increments, the
    state after two pass actions is terminal. *)
Theorem X7_two_passes_are_terminal (self : Game) (state : GameState) (a b : Z) :
  size self * size self <= a -> size self * size self <= b ->
  0 <= consecutive_pass_count state < Int32.half - 2 ->
  consecutive_pass_count (step self (step self state a) b)
  = consecutive_pass_count state + 2 /\
  is_terminal self (step self (step self state a) b) = true.
Proof.
  intros Ha Hb Hc. rewrite Int32Facts.half_val in Hc.
  assert (E : consecutive_pass_count (step self (step self state a) b)
              = consecutive_pass_count state + 2).
  { rewrite !pass_count_after_pass by assumption. unfold Int32.add.
    rewrite (Int32Facts.wrap_small (consecutive_pass_count state + 1))
      by (unfold Int32.in_range; rewrite Int32Facts.half_val; lia).
    replace (consecutive_pass_count state + 1 + 1)
      with (consecutive_pass_count state + 2) by lia.
    apply Int32Facts.wrap_small. unfold Int32.in_range. rewrite Int32Facts.half_val. lia. }
  split; [exact E|]. unfold is_terminal. rewrite E.
  destruct (Z.geb_spec (consecutive_pass_count state + 2) 2); [reflexivity | lia].
Qed.

Lemma X7_two_passes_are_terminal_witness :
  is_terminal game5 (step game5 (step game5 ko_position 25) 25) = true.
Proof.
  apply (X7_two_passes_are_terminal game5 ko_position 25 25).
  - vm_compute. discriminate.
  - vm_compute. discriminate.
  - vm_compute. split; [discriminate | reflexivity].
Defined.

(** X8: every step hands the move to the other colour, and a play (an action
    below side * side) resets the pass counter to 0 and leaves a state that
    is terminal only through the superko flag. *)
Theorem X8_step_turn_and_pass_counter (self : Game) (state : GameState) (action : Z) :
  color state = 0 \/ color state = 1 ->
  color (step self state action) = 1 - color state /\
  (action < size self * size self ->
   consecutive_pass_count (step self state action) = 0 /\
   is_terminal self (step self state action) = is_psk (step self state action)).
Proof.
  intros Hc. split; [apply step_color; exact Hc|].
  intros Ha. pose proof (step_play_resets_pass_count self state action Ha) as Hp.
  split; [exact Hp|]. unfold is_terminal. rewrite Hp. reflexivity.
Qed.

Lemma X8_step_turn_and_pass_counter_witness :
  color (step game5 ko_position 7) = 1 /\
  consecutive_pass_count (step game5 ko_position 7) = 0.
Proof.
  destruct (X8_step_turn_and_pass_counter game5 ko_position 7) as (H1 & H2).
  - left. reflexivity.
  - split; [exact H1|]. apply H2. reflexivity.
Defined.

(** X9: [terminal_values] returns, once the fuel covers the flood fill, and
    its two rewards are +1 and -1 in one order or the other; under the
    superko flag the +1 goes to the colour to move. *)
Theorem X9_terminal_values_zero_sum (fuel : nat) (self : Game) (state : GameState) :
  (length (chain_id_board state) + 2 <= fuel)%nat ->
  color state = 0 \/ color state = 1 ->
  exists r, terminal_values fuel self state = Some r /\
            (r = [1; -1] \/ r = [-1; 1]) /\
            (is_psk state = true -> Jnp.get 0 r (color state) = 1).
Proof.
  intros Hf Hc. unfold terminal_values.
  destruct (_count_point_returns fuel state (size self) Hf) as (sb & sw & ->).
  eexists. split; [reflexivity|].
  destruct (is_psk state).
  - destruct Hc as [-> | ->]; (split; [|intros _; reflexivity]); [left | right]; reflexivity.
  - split; [|discriminate].
    destruct (Qgtb _ _); [left | right]; reflexivity.
Qed.

Lemma X9_terminal_values_zero_sum_witness :
  exists r, terminal_values 27 game5 two_passes = Some r /\
            (r = [1; -1] \/ r = [-1; 1]) /\
            (is_psk two_passes = true -> Jnp.get 0 r (color two_passes) = 1).
Proof.
  apply (X9_terminal_values_zero_sum 27 game5 two_passes).
  - vm_compute. lia.
  - left. reflexivity.
Defined.
